(** * sparrow_parse.vllm.qwen_api_inference: a shallow embedding

    The module under study is the class [QwenAPIInference] of
    [sparrow-data/parse/sparrow_parse/vllm/qwen_api_inference.py].  Its
    methods are embedded as Rocq functions that keep the Python names:
    [image_to_data_url], [process_response], [load_image_data],
    [inference] and [_extract_file_paths].

    The Python runtime pieces the methods lean on are modelled next to
    them: text ([str]: a list of code points) with [find], slicing,
    [strip] and [replace]; [base64.b64encode]; [json.loads] and
    [json.dumps]; binary64 arithmetic for the aspect-ratio computation;
    the file system, the image decoder and the remote endpoint as an
    environment record. *)

From Stdlib Require Import ZArith NArith QArith Qround Qabs Qpower.
From Stdlib Require Import List Bool Lia Lqa String Ascii DecimalString.
From Stdlib.Strings Require Import Byte.
From Stdlib.Floats Require Import SpecFloat.
Import ListNotations.

Local Open Scope Z_scope.
Local Open Scope list_scope.

(* ================================================================= *)
(** ** Text *)

(** A Python [str] is a sequence of Unicode code points. *)
Definition char : Type := N.
Definition str : Type := list char.

Definition ch (a : ascii) : char := N_of_ascii a.

(** [u "..."] is the [str] spelled by a literal. *)
Definition u (s : string) : str := List.map ch (list_ascii_of_string s).

(** The double quote character, spelled by its code point. *)
Definition DQUOTE : char := 34%N.
Definition BACKSLASH : char := 92%N.

Definition str_eqb (a b : str) : bool :=
  if list_eq_dec N.eq_dec a b then true else false.

Module PyStr.

(** [s.startswith(sub)] *)
Fixpoint startswith (sub s : str) : bool :=
  match sub, s with
  | [], _ => true
  | _ :: _, [] => false
  | a :: sub', b :: s' => (a =? b)%N && startswith sub' s'
  end.

(** Scan for [sub] from the head of [s], which sits at index [i]. *)
Fixpoint find_at (sub s : str) (i : Z) : Z :=
  if startswith sub s then i
  else match s with
       | [] => -1
       | _ :: t => find_at sub t (i + 1)
       end.

Definition len' {A : Type} (s : list A) : Z := Z.of_nat (List.length s).
Definition len (s : str) : Z := len' s.

(** [s.find(sub, start)]: lowest index at or after [start] where [sub]
    occurs, [-1] when there is none. *)
Definition find_from (s sub : str) (start : Z) : Z :=
  let start' := if start <? 0 then Z.max 0 (start + len s) else start in
  if len s <? start' then -1
  else find_at sub (skipn (Z.to_nat start') s) start'.

(** [s.find(sub)] *)
Definition find (s sub : str) : Z := find_from s sub 0.

(** [sub in s] *)
Definition contains (sub s : str) : bool := 0 <=? find s sub.

(** Normalisation of one bound of a slice. *)
Definition clamp (n i : Z) : Z :=
  if i <? 0 then Z.max 0 (i + n) else Z.min i n.

(** [s[a:b]] *)
Definition slice (s : str) (a b : Z) : str :=
  let a' := clamp (len s) a in
  let b' := clamp (len s) b in
  if b' <=? a' then []
  else firstn (Z.to_nat (b' - a')) (skipn (Z.to_nat a') s).

(** Code points for which [str.isspace] holds. *)
Definition isspace (c : char) : bool :=
  ((9 <=? c) && (c <=? 13) || (28 <=? c) && (c <=? 32)
   || (c =? 133) || (c =? 160) || (c =? 5760)
   || (8192 <=? c) && (c <=? 8202)
   || (c =? 8232) || (c =? 8233) || (c =? 8239) || (c =? 8287)
   || (c =? 12288))%N.

Fixpoint lstrip_by (p : char -> bool) (s : str) : str :=
  match s with
  | [] => []
  | c :: t => if p c then lstrip_by p t else s
  end.

Definition rstrip_by (p : char -> bool) (s : str) : str :=
  rev (lstrip_by p (rev s)).

Definition strip_by (p : char -> bool) (s : str) : str :=
  rstrip_by p (lstrip_by p s).

(** [s.strip()] *)
Definition strip (s : str) : str := strip_by isspace s.

Definition mem (c : char) (chars : str) : bool :=
  existsb (fun d => (c =? d)%N) chars.

(** [s.strip(chars)] *)
Definition strip_chars (chars s : str) : str :=
  strip_by (fun c => mem c chars) s.

(** [s.replace(old, new)] for a non-empty [old]: left to right, without
    overlap.  [skip] counts the characters of a match still to drop. *)
Fixpoint replace_aux (old new s : str) (skip : nat) : str :=
  match s with
  | [] => []
  | c :: t =>
    match skip with
    | S k => replace_aux old new t k
    | O => if startswith old s
           then new ++ replace_aux old new t (List.length old - 1)
           else c :: replace_aux old new t 0
    end
  end.

(** With an empty [old] Python puts [new] around every character. *)
Definition replace (s old new : str) : str :=
  match old with
  | [] => new ++ flat_map (fun c => c :: new) s
  | _ :: _ => replace_aux old new s 0
  end.

End PyStr.

(* ================================================================= *)
(** ** Printing and reading decimal integers *)

Definition str_of_Z (z : Z) : str := u (NilZero.string_of_int (Z.to_int z)).

Definition is_digit (c : char) : bool := ((48 <=? c) && (c <=? 57))%N.

Definition digit_val (c : char) : Z := Z.of_N (c - 48).

Definition Z_of_digits (ds : str) : Z :=
  fold_left (fun acc d => 10 * acc + digit_val d) ds 0.

Fixpoint span_digits (s : str) : str * str :=
  match s with
  | [] => ([], [])
  | c :: t => if is_digit c
              then let (ds, r) := span_digits t in (c :: ds, r)
              else ([], s)
  end.

(* ================================================================= *)
(** ** base64.b64encode *)

Module Base64.

Definition alphabet (i : N) : char :=
  (if i <? 26 then 65 + i
   else if i <? 52 then 97 + (i - 26)
   else if i <? 62 then 48 + (i - 52)
   else if i =? 62 then 43 else 47)%N.

Definition PAD : char := 61%N.

Fixpoint b64encode (bs : list byte) : str :=
  match bs with
  | [] => []
  | [a] =>
    let x := Byte.to_N a in
    [alphabet (x / 4); alphabet ((x mod 4) * 16); PAD; PAD]%N
  | [a; b] =>
    let x := Byte.to_N a in
    let y := Byte.to_N b in
    [alphabet (x / 4); alphabet ((x mod 4) * 16 + y / 16);
     alphabet ((y mod 16) * 4); PAD]%N
  | a :: b :: c :: rest =>
    let x := Byte.to_N a in
    let y := Byte.to_N b in
    let z := Byte.to_N c in
    (alphabet (x / 4) :: alphabet ((x mod 4) * 16 + y / 16)
     :: alphabet ((y mod 16) * 4 + z / 64) :: alphabet (z mod 64)
     :: b64encode rest)%N
  end.

End Base64.

(* ================================================================= *)
(** ** JSON values, json.loads and json.dumps *)

(** What [json.loads] builds.  An integer literal becomes a Python [int];
    a literal with a fraction or an exponent, and [NaN], [Infinity] and
    [-Infinity], become a Python [float], kept here as the literal that was
    read.  A [dict] keeps its keys in insertion order. *)
Unset Elimination Schemes.
Inductive json : Type :=
| JNull
| JBool (b : bool)
| JInt (n : Z)
| JFloat (lit : str)
| JStr (s : str)
| JArr (items : list json)
| JObj (members : list (str * json)).
Set Elimination Schemes.

Module Json.

(** Outcome of a scanning step: a value and the unread text, a decoding
    failure ([json.JSONDecodeError]), or exhausted recursion budget. *)
Inductive pres (A : Type) : Type :=
| POk (a : A) (rest : str)
| PFail
| PFuel.
Arguments POk {A} a rest.
Arguments PFail {A}.
Arguments PFuel {A}.

Definition pmap {A B : Type} (f : A -> B) (r : pres A) : pres B :=
  match r with
  | POk a rest => POk (f a) rest
  | PFail => PFail
  | PFuel => PFuel
  end.

(** The decoder's whitespace: space, tab, line feed, carriage return. *)
Definition is_ws (c : char) : bool :=
  ((c =? 32) || (c =? 9) || (c =? 10) || (c =? 13))%N.

Definition skip_ws (s : str) : str := PyStr.lstrip_by is_ws s.

Definition hex_val (c : char) : option N :=
  (if (48 <=? c) && (c <=? 57) then Some (c - 48)
   else if (97 <=? c) && (c <=? 102) then Some (c - 87)
   else if (65 <=? c) && (c <=? 70) then Some (c - 55)
   else None)%N.

Definition hex4 (a b c d : char) : option N :=
  match hex_val a, hex_val b, hex_val c, hex_val d with
  | Some x, Some y, Some z, Some w =>
    Some (((x * 16 + y) * 16 + z) * 16 + w)%N
  | _, _, _, _ => None
  end.

(** The one-letter escapes of the decoder's BACKSLASH table. *)
Definition unescape (e : char) : option char :=
  (if e =? 34 then Some 34
   else if e =? 92 then Some 92
   else if e =? 47 then Some 47
   else if e =? 98 then Some 8
   else if e =? 102 then Some 12
   else if e =? 110 then Some 10
   else if e =? 114 then Some 13
   else if e =? 116 then Some 9
   else None)%N.

Definition is_high_surrogate (n : N) : bool :=
  ((55296 <=? n) && (n <=? 56319))%N.
Definition is_low_surrogate (n : N) : bool :=
  ((56320 <=? n) && (n <=? 57343))%N.
Definition join_surrogates (hi lo : N) : N :=
  (65536 + ((hi - 55296) * 1024 + (lo - 56320)))%N.

(** [scanstring], strict mode: the text after an opening quote, up to
    the closing one. *)
Fixpoint scanstring (s : str) (acc : str) : pres str :=
  match s with
  | [] => PFail
  | c :: t =>
    if (c =? DQUOTE)%N then POk (rev acc) t
    else if (c =? BACKSLASH)%N then
      match t with
      | [] => PFail
      | e :: t1 =>
        if (e =? 117)%N then
          match t1 with
          | h1 :: h2 :: h3 :: h4 :: t2 =>
            match hex4 h1 h2 h3 h4 with
            | None => PFail
            | Some uni =>
              if is_high_surrogate uni then
                match t2 with
                | b :: v :: g1 :: g2 :: g3 :: g4 :: t3 =>
                  if ((b =? BACKSLASH) && (v =? 117))%N then
                    match hex4 g1 g2 g3 g4 with
                    | None => PFail
                    | Some uni2 =>
                      if is_low_surrogate uni2
                      then scanstring t3 (join_surrogates uni uni2 :: acc)
                      else scanstring t2 (uni :: acc)
                    end
                  else scanstring t2 (uni :: acc)
                | _ => scanstring t2 (uni :: acc)
                end
              else scanstring t2 (uni :: acc)
            end
          | _ => PFail
          end
        else
          match unescape e with
          | Some c' => scanstring t1 (c' :: acc)
          | None => PFail
          end
      end
    else if (c <? 32)%N then PFail
    else scanstring t (c :: acc)
  end.

(** NUMBER_RE: an optional minus sign; a zero, or a non-zero digit and
    more digits; optionally a dot and one or more digits; optionally
    e or E, an optional sign, and one or more digits. *)
Definition scan_int_part (s : str) : option (str * str) :=
  match s with
  | [] => None
  | c :: t =>
    if (c =? 48)%N then Some ([c], t)
    else if is_digit c
         then let (ds, r) := span_digits t in Some (c :: ds, r)
         else None
  end.

Definition scan_frac (s : str) : str * str :=
  match s with
  | c :: t =>
    if (c =? 46)%N then
      match span_digits t with
      | ([], _) => ([], s)
      | (ds, r) => (c :: ds, r)
      end
    else ([], s)
  | [] => ([], s)
  end.

Definition scan_exp (s : str) : str * str :=
  match s with
  | c :: t =>
    if ((c =? 101) || (c =? 69))%N then
      match t with
      | sg :: t' =>
        if ((sg =? 43) || (sg =? 45))%N then
          match span_digits t' with
          | ([], _) => ([], s)
          | (ds, r) => (c :: sg :: ds, r)
          end
        else
          match span_digits t with
          | ([], _) => ([], s)
          | (ds, r) => (c :: ds, r)
          end
      | [] => ([], s)
      end
    else ([], s)
  | [] => ([], s)
  end.

Definition scan_number (s : str) : option (json * str) :=
  let (sign, s1) :=
    match s with
    | c :: t => if (c =? 45)%N then ([c], t) else ([], s)
    | [] => ([], s)
    end in
  match scan_int_part s1 with
  | None => None
  | Some (int_part, r1) =>
    let (frac, r2) := scan_frac r1 in
    let (exp, r3) := scan_exp r2 in
    match frac, exp with
    | [], [] =>
      let n := Z_of_digits int_part in
      Some (JInt (match sign with [] => n | _ => - n end), r3)
    | _, _ => Some (JFloat (sign ++ int_part ++ frac ++ exp), r3)
    end
  end.

(** [dict(pairs)]: a repeated key keeps its first position and takes the
    last value. *)
Fixpoint dict_set (d : list (str * json)) (k : str) (v : json)
  : list (str * json) :=
  match d with
  | [] => [(k, v)]
  | (k', v') :: rest =>
    if str_eqb k k' then (k', v) :: rest else (k', v') :: dict_set rest k v
  end.

Definition dict_of_pairs (pairs : list (str * json)) : list (str * json) :=
  fold_left (fun d kv => dict_set d (fst kv) (snd kv)) pairs [].

(** A literal keyword at the head of the text. *)
Definition keyword (kw : string) (v : json) (s : str) : option (json * str) :=
  if PyStr.startswith (u kw) s
  then Some (v, skipn (List.length (u kw)) s)
  else None.

Definition scan_constant (s : str) : pres json :=
  match keyword "null" JNull s with
  | Some (v, r) => POk v r
  | None =>
  match keyword "true" (JBool true) s with
  | Some (v, r) => POk v r
  | None =>
  match keyword "false" (JBool false) s with
  | Some (v, r) => POk v r
  | None =>
  match scan_number s with
  | Some (v, r) => POk v r
  | None =>
  match keyword "NaN" (JFloat (u "NaN")) s with
  | Some (v, r) => POk v r
  | None =>
  match keyword "Infinity" (JFloat (u "Infinity")) s with
  | Some (v, r) => POk v r
  | None =>
  match keyword "-Infinity" (JFloat (u "-Infinity")) s with
  | Some (v, r) => POk v r
  | None => PFail
  end end end end end end end.

(** [scan_once], [JSONArray] and [JSONObject].  [parse_elems] reads the
    items of an array after the opening bracket and whitespace;
    [parse_members] reads the members of an object after the opening
    quote of a key. *)
Fixpoint parse_value (fuel : nat) (s : str) {struct fuel} : pres json :=
  match fuel with
  | O => PFuel
  | S fuel' =>
    match s with
    | [] => PFail
    | c :: t =>
      if (c =? DQUOTE)%N then pmap JStr (scanstring t [])
      else if (c =? 123)%N then
        match skip_ws t with
        | d :: t1 =>
          if (d =? 125)%N then POk (JObj []) t1
          else if (d =? DQUOTE)%N
               then pmap (fun ps => JObj (dict_of_pairs ps))
                         (parse_members fuel' t1 [])
               else PFail
        | [] => PFail
        end
      else if (c =? 91)%N then
        match skip_ws t with
        | d :: t1 =>
          if (d =? 93)%N then POk (JArr []) t1
          else pmap JArr (parse_elems fuel' (d :: t1) [])
        | [] => PFail
        end
      else scan_constant s
    end
  end

with parse_elems (fuel : nat) (s : str) (acc : list json) {struct fuel}
  : pres (list json) :=
  match fuel with
  | O => PFuel
  | S fuel' =>
    match parse_value fuel' s with
    | PFail => PFail
    | PFuel => PFuel
    | POk v r =>
      match skip_ws r with
      | d :: r1 =>
        if (d =? 93)%N then POk (rev (v :: acc)) r1
        else if (d =? 44)%N then parse_elems fuel' (skip_ws r1) (v :: acc)
        else PFail
      | [] => PFail
      end
    end
  end

with parse_members (fuel : nat) (s : str) (acc : list (str * json))
                   {struct fuel} : pres (list (str * json)) :=
  match fuel with
  | O => PFuel
  | S fuel' =>
    match scanstring s [] with
    | PFail => PFail
    | PFuel => PFuel
    | POk key r =>
      match skip_ws r with
      | d :: r1 =>
        if (d =? 58)%N then
          match parse_value fuel' (skip_ws r1) with
          | PFail => PFail
          | PFuel => PFuel
          | POk v r2 =>
            match skip_ws r2 with
            | e :: r3 =>
              if (e =? 125)%N then POk (rev ((key, v) :: acc)) r3
              else if (e =? 44)%N then
                match skip_ws r3 with
                | q :: r4 =>
                  if (q =? DQUOTE)%N
                  then parse_members fuel' r4 ((key, v) :: acc)
                  else PFail
                | [] => PFail
                end
              else PFail
            | [] => PFail
            end
          end
        else PFail
      | [] => PFail
      end
    end
  end.

(** Recursion budget that the decoder cannot exhaust on [s]. *)
Definition budget (s : str) : nat := 2 * List.length s + 2.

Definition decode (s : str) : pres json :=
  match s with
  | c :: _ => if (c =? 65279)%N then PFail
              else parse_value (budget s) (skip_ws s)
  | [] => PFail
  end.

(** [json.loads(s)]: [None] stands for [json.JSONDecodeError]. *)
Definition loads (s : str) : option json :=
  match decode s with
  | POk v rest => match skip_ws rest with [] => Some v | _ :: _ => None end
  | PFail => None
  | PFuel => None
  end.

(** [encode_basestring_ascii] *)
Definition hex_digit (n : N) : char :=
  (if n <? 10 then 48 + n else 87 + n)%N.

Definition u_escape (n : N) : str :=
  [BACKSLASH; 117%N;
   hex_digit (n / 4096); hex_digit ((n / 256) mod 16);
   hex_digit ((n / 16) mod 16); hex_digit (n mod 16)]%N.

Definition escape_char (c : char) : str :=
  (if c =? 34 then [BACKSLASH; 34]
   else if c =? 92 then [BACKSLASH; 92]
   else if c =? 10 then [BACKSLASH; 110]
   else if c =? 13 then [BACKSLASH; 114]
   else if c =? 9 then [BACKSLASH; 116]
   else if c =? 8 then [BACKSLASH; 98]
   else if c =? 12 then [BACKSLASH; 102]
   else if (32 <=? c) && (c <=? 126) then [c]
   else if c <? 65536 then u_escape c
   else u_escape (55296 + (c - 65536) / 1024)
        ++ u_escape (56320 + (c - 65536) mod 1024))%N.

Definition encode_string (s : str) : str :=
  [DQUOTE] ++ flat_map escape_char s ++ [DQUOTE].

Definition newline_indent (indent level : nat) : str :=
  10%N :: repeat 32%N (indent * level).

(** [json.dumps(v, indent=indent)], at nesting depth [level]. *)
Fixpoint encode (indent level : nat) (v : json) {struct v} : str :=
  match v with
  | JNull => u "null"
  | JBool true => u "true"
  | JBool false => u "false"
  | JInt n => str_of_Z n
  | JFloat lit => lit
  | JStr s => encode_string s
  | JArr [] => u "[]"
  | JArr (x :: xs) =>
    u "[" ++ newline_indent indent (S level) ++ encode indent (S level) x
      ++ (fix items (l : list json) : str :=
            match l with
            | [] => []
            | y :: ys => u "," ++ newline_indent indent (S level)
                           ++ encode indent (S level) y ++ items ys
            end) xs
      ++ newline_indent indent level ++ u "]"
  | JObj [] => u "{}"
  | JObj ((k, x) :: xs) =>
    u "{" ++ newline_indent indent (S level)
      ++ encode_string k ++ u ": " ++ encode indent (S level) x
      ++ (fix members (l : list (str * json)) : str :=
            match l with
            | [] => []
            | (k', y) :: ys => u "," ++ newline_indent indent (S level)
                                 ++ encode_string k' ++ u ": "
                                 ++ encode indent (S level) y ++ members ys
            end) xs
      ++ newline_indent indent level ++ u "}"
  end.

Definition dumps (v : json) (indent : nat) : str := encode indent 0 v.

End Json.

(* ================================================================= *)
(** ** Exceptions *)

(** The Python exceptions that can travel through the class.
    [RequestException] stands for [requests.exceptions.RequestException]
    and its subclasses ([ConnectionError], [Timeout], [HTTPError], ...);
    it carries [str(e)]. *)
Inductive exn : Type :=
| FileNotFoundError (path : str)
| OSError (msg : str)
| UnidentifiedImageError (path : str)
| ValueError (msg : str)
| ZeroDivisionError
| KeyError (key : str)
| IndexError
| TypeError
| AttributeError
| RequestException (msg : str).

Inductive result (A : Type) : Type :=
| Ok (a : A)
| Raise (e : exn).
Arguments Ok {A} a.
Arguments Raise {A} e.

Definition rbind {A B : Type} (r : result A) (k : A -> result B) : result B :=
  match r with
  | Ok a => k a
  | Raise e => Raise e
  end.

Declare Scope result_scope.
Delimit Scope result_scope with result.
Notation "x <- r ;; k" := (rbind r (fun x => k))
  (at level 61, r at next level, right associativity) : result_scope.

(** [except requests.exceptions.RequestException as e]: the text of
    [str(e)] when the handler applies. *)
Definition as_RequestException (e : exn) : option str :=
  match e with
  | RequestException msg => Some msg
  | _ => None
  end.

(* ================================================================= *)
(** ** Binary64 arithmetic *)

(** Python's [float] is IEEE-754 binary64.  A finite value is kept as the
    rational number it denotes, and every operation returns the exact
    result rounded to 53 significant bits, ties to even.  Overflow and
    subnormal results are outside this model; they cannot arise from
    image sizes, which are positive and below 2^31. *)
Module Float64.

Definition float : Type := Q.

Definition pow2 (k : Z) : Q := Qpower 2 k.

(** For [q > 0], the integer [k] with [2^k <= q < 2^(k+1)]. *)
Definition ilog2 (q : Q) : Z :=
  let k := Z.log2 (Qnum q) - Z.log2 (Zpos (Qden q)) in
  if Qle_bool (pow2 k) q then k else k - 1.

Definition round_half_even (t : Q) : Z :=
  let m := Qfloor t in
  match Qcompare (t - inject_Z m) (1 # 2) with
  | Lt => m
  | Gt => m + 1
  | Eq => if Z.even m then m else m + 1
  end.

(** Rounding of a positive rational to 53 significant bits. *)
Definition round_pos (q : Q) : float :=
  let e := ilog2 q - 52 in
  Qred (inject_Z (round_half_even (q / pow2 e)) * pow2 e).

Definition round (q : Q) : float :=
  match Qcompare q 0 with
  | Eq => 0%Q
  | Gt => round_pos q
  | Lt => Qopp (round_pos (Qopp q))
  end.

(** [float(n)] *)
Definition of_int (n : Z) : float := round (inject_Z n).

(** [a / b] on two [int]s: the correctly rounded quotient. *)
Definition truediv (a b : Z) : result float :=
  if b =? 0 then Raise ZeroDivisionError
  else Ok (round (Qmake a 1 / Qmake b 1)).

(** [n * x] for an [int] and a [float]. *)
Definition int_mul (n : Z) (x : float) : float :=
  round (of_int n * x).

(** [n / x] for an [int] and a [float]. *)
Definition int_div (n : Z) (x : float) : result float :=
  if Qeq_bool x 0 then Raise ZeroDivisionError
  else Ok (round (of_int n / x)).

(** [int(x)]: truncation towards zero. *)
Definition to_int (x : float) : Z :=
  if Qle_bool 0 x then Qfloor x else Qceiling x.

End Float64.

(* ================================================================= *)
(** ** os.path.abspath on a POSIX system *)

Module Posix.

Definition SLASH : char := 47%N.

(** [path.split('/')] *)
Fixpoint split_aux (s : str) (cur : str) : list str :=
  match s with
  | [] => [rev cur]
  | c :: t => if (c =? SLASH)%N then rev cur :: split_aux t []
              else split_aux t (c :: cur)
  end.

Definition split (s : str) : list str := split_aux s [].

Fixpoint join (parts : list str) : str :=
  match parts with
  | [] => []
  | [p] => p
  | p :: rest => p ++ SLASH :: join rest
  end.

Definition initial_slashes (path : str) : nat :=
  match path with
  | a :: b :: c :: _ =>
    if (a =? SLASH)%N then
      if ((b =? SLASH) && negb (c =? SLASH))%N then 2%nat else 1%nat
    else 0%nat
  | [a; b] =>
    if (a =? SLASH)%N then if (b =? SLASH)%N then 2%nat else 1%nat
    else 0%nat
  | [a] => if (a =? SLASH)%N then 1%nat else 0%nat
  | [] => 0%nat
  end.

(** The component loop of [normpath]; [new_comps] is kept reversed. *)
Fixpoint norm_comps (slashes : nat) (comps : list str) (new_comps : list str)
  : list str :=
  match comps with
  | [] => rev new_comps
  | comp :: rest =>
    if str_eqb comp [] || str_eqb comp (u ".")
    then norm_comps slashes rest new_comps
    else if negb (str_eqb comp (u ".."))
      then norm_comps slashes rest (comp :: new_comps)
      else match new_comps with
           | [] => match slashes with
                   | O => norm_comps slashes rest (comp :: new_comps)
                   | S _ => norm_comps slashes rest new_comps
                   end
           | top :: below =>
             if str_eqb top (u "..")
             then norm_comps slashes rest (comp :: new_comps)
             else norm_comps slashes rest below
           end
  end.

Definition normpath (path : str) : str :=
  match path with
  | [] => u "."
  | _ :: _ =>
    let n := initial_slashes path in
    let body := repeat SLASH n ++ join (norm_comps n (split path) []) in
    match body with
    | [] => u "."
    | _ :: _ => body
    end
  end.

Definition isabs (path : str) : bool := PyStr.startswith [SLASH] path.

(** [os.path.join(a, b)] *)
Definition path_join (a b : str) : str :=
  if isabs b then b
  else match rev a with
       | [] => b
       | c :: _ => if (c =? SLASH)%N then a ++ b else a ++ SLASH :: b
       end.

(** [os.path.abspath(path)] in a process whose working directory is
    [cwd]. *)
Definition abspath (cwd path : str) : str :=
  normpath (if isabs path then path else path_join cwd path).

End Posix.

(* ================================================================= *)
(** ** The environment of a call *)

(** A request handed to [requests.post(url, headers=..., json=...)]. *)
Record Request : Type := {
  url : str;
  headers : list (str * str);
  json_payload : json
}.

(** A [requests.Response]: what [raise_for_status] and [json()] look at. *)
Record Response : Type := {
  status_code : Z;
  reason : str;
  response_url : str;
  response_json : result json
}.

(** Everything outside the class: the working directory behind
    [os.path.abspath], the file system, Pillow and the remote endpoint.
    [Image_open] yields [image.size]; [Image_resize] tells whether
    [image.resize] raises for a target size; [requests_post] answers a
    request and moves the endpoint to its next state.
    [get_simple_json] is inherited from [ModelInference], whose source is
    not part of the module. *)
Record Env : Type := {
  Remote : Type;
  abspath : str -> str;
  Image_open : str -> result (Z * Z);
  Image_resize : str -> Z * Z -> option exn;
  file_read : str -> result (list byte);
  requests_post : Remote -> Request -> result Response * Remote;
  get_simple_json : json
}.

(** Externally visible steps, in the order they happen. *)
Inductive event : Type :=
| EvImageOpen (path : str)
| EvFileRead (path : str)
| EvPost (req : Request).

Record State (E : Env) : Type := {
  remote : Remote E;
  trace : list event
}.
Arguments remote {E} s.
Arguments trace {E} s.

Definition log {E : Env} (ev : event) (st : State E) : State E :=
  {| remote := remote st; trace := trace st ++ [ev] |}.

(** Computations that read and write the state and may raise. *)
Definition M (E : Env) (A : Type) : Type := State E -> result A * State E.

Definition ret {E : Env} {A : Type} (a : A) : M E A := fun st => (Ok a, st).

Definition bind {E : Env} {A B : Type} (m : M E A) (k : A -> M E B) : M E B :=
  fun st =>
    match m st with
    | (Ok a, st') => k a st'
    | (Raise e, st') => (Raise e, st')
    end.

Definition lift {E : Env} {A : Type} (r : result A) : M E A :=
  fun st => (r, st).

Declare Scope monad_scope.
Delimit Scope monad_scope with monad.
Notation "x <- m ;; k" := (bind m (fun x => k))
  (at level 61, m at next level, right associativity) : monad_scope.

(** The instance: [self.api_url] and [self.api_key]. *)
Record QwenAPIInference : Type := {
  api_url : str;
  api_key : str
}.

(** One element of [input_data]: a dict that may carry the keys
    ["file_path"] (a list of paths) and ["text_input"]. *)
Record Item : Type := {
  file_path : option (list str);
  text_input : option str
}.

(* ================================================================= *)
(** ** The methods of [QwenAPIInference] *)

Section Methods.

Variable E : Env.
Variable self : QwenAPIInference.

Local Open Scope monad_scope.

(** [image_to_data_url(self, image_path)] *)
Definition data_url (raw : list byte) : str :=
  u "data:image/jpeg;base64," ++ Base64.b64encode raw.

Definition image_to_data_url (image_path : str) : M E str :=
  fun st =>
    let st' := log (EvFileRead image_path) st in
    match file_read E image_path with
    | Ok raw => (Ok (data_url raw), st')
    | Raise e => (Raise e, st')
    end.

(** [process_response(self, output_text)], on a [str].

    [fence_step] is the first [if] of the [try] block: the value of
    [output_text] once the block is left. *)
Definition fence_step (output_text : str) : str :=
  if PyStr.contains (u "```json") output_text then
    let json_start := PyStr.find output_text (u "```json") + 7 in
    let json_end := PyStr.find_from output_text (u "```") json_start in
    if negb (json_end =? -1)
    then PyStr.strip (PyStr.slice output_text json_start json_end)
    else output_text
  else output_text.

Definition clean (output_text : str) : str :=
  PyStr.replace (PyStr.strip_chars (u "[]'") output_text) (u "'") [DQUOTE].

Definition process_response (output_text : str) : str :=
  let output_text := fence_step output_text in
  let cleaned_text := clean output_text in
  match Json.loads cleaned_text with
  | Some formatted_json => Json.dumps formatted_json 2
  | None => output_text
  end.

(** [process_response] on whatever value the response carried.  On a
    number, a boolean or [None] the test [in] raises [TypeError]; a list
    or a dict passes the test and has no [find] and no [strip]. *)
Definition process_response_any (output_text : json) : result str :=
  match output_text with
  | JStr s => Ok (process_response s)
  | JArr _ | JObj _ => Raise AttributeError
  | JNull | JBool _ | JInt _ | JFloat _ => Raise TypeError
  end.

(** The arithmetic of [load_image_data]: the size to return and whether
    [image.resize] is called. *)
Definition new_size (width height max_width max_height : Z)
  : result (Z * Z) :=
  (aspect_ratio <- Float64.truediv width height ;;
   let new_width :=
     Z.min max_width
           (Float64.to_int (Float64.int_mul max_height aspect_ratio)) in
   q <- Float64.int_div max_width aspect_ratio ;;
   let new_height := Z.min max_height (Float64.to_int q) in
   Ok (new_width, new_height))%result.

Definition load_size (image_filepath : str) (max_width max_height : Z)
  : result (Z * Z) :=
  (size <- Image_open E image_filepath ;;
   let '(width, height) := size in
   if (width >? max_width) || (height >? max_height) then
     target <- new_size width height max_width max_height ;;
     match Image_resize E image_filepath target with
     | Some e => Raise e
     | None => Ok target
     end
   else Ok (width, height))%result.

(** [load_image_data(self, image_filepath, max_width, max_height)]; of
    the returned triple the two dimensions are kept. *)
Definition load_image_data (image_filepath : str) (max_width max_height : Z)
  : M E (Z * Z) :=
  fun st =>
    (load_size image_filepath max_width max_height,
     log (EvImageOpen image_filepath) st).

Definition DEFAULT_MAX_WIDTH : Z := 1250.
Definition DEFAULT_MAX_HEIGHT : Z := 1750.

(** [_extract_file_paths(input_data)] *)
Definition _extract_file_paths (input_data : list Item) : list str :=
  flat_map
    (fun data =>
       List.map (abspath E)
                (match file_path data with
                 | Some paths => paths
                 | None => []
                 end))
    input_data.

(** [input_data[0]["text_input"]] *)
Definition first_text_input (input_data : list Item) : result str :=
  match input_data with
  | [] => Raise IndexError
  | data :: _ =>
    match text_input data with
    | Some text => Ok text
    | None => Raise (KeyError (u "text_input"))
    end
  end.

Definition SYSTEM_PROMPT : str :=
  u "You are an expert at extracting structured text from image documents. Please provide the extracted information in JSON format.".

Definition MODEL : str := u "qwen/qwen2.5-vl-72b-instruct:free".

Definition messages (text image_data_url : str) : json :=
  JArr
    [ JObj [ (u "role", JStr (u "system"));
             (u "content", JStr SYSTEM_PROMPT) ];
      JObj [ (u "role", JStr (u "user"));
             (u "content",
              JArr [ JObj [ (u "type", JStr (u "text"));
                            (u "text", JStr text) ];
                     JObj [ (u "type", JStr (u "image_url"));
                            (u "image_url",
                             JObj [ (u "url", JStr image_data_url) ]) ] ]) ] ].

Definition payload (text image_data_url : str) : json :=
  JObj [ (u "model", JStr MODEL);
         (u "messages", messages text image_data_url) ].

Definition request_headers : list (str * str) :=
  [ (u "Authorization", u "Bearer " ++ api_key self);
    (u "Content-Type", u "application/json") ].

Definition build_request (text image_data_url : str) : Request :=
  {| url := api_url self;
     headers := request_headers;
     json_payload := payload text image_data_url |}.

(** [response.raise_for_status()] *)
Definition raise_for_status (r : Response) : result unit :=
  if (400 <=? status_code r) && (status_code r <? 500) then
    Raise (RequestException
             (str_of_Z (status_code r) ++ u " Client Error: " ++ reason r
                ++ u " for url: " ++ response_url r))
  else if (500 <=? status_code r) && (status_code r <? 600) then
    Raise (RequestException
             (str_of_Z (status_code r) ++ u " Server Error: " ++ reason r
                ++ u " for url: " ++ response_url r))
  else Ok tt.

(** Subscripting a decoded value: [v[key]] and [v[i]]. *)
Fixpoint dict_get (d : list (str * json)) (key : str) : option json :=
  match d with
  | [] => None
  | (k, v) :: rest => if str_eqb key k then Some v else dict_get rest key
  end.

Definition getitem_key (v : json) (key : str) : result json :=
  match v with
  | JObj d =>
    match dict_get d key with
    | Some x => Ok x
    | None => Raise (KeyError key)
    end
  | _ => Raise TypeError
  end.

Definition getitem_index (v : json) (i : Z) : result json :=
  match v with
  | JArr items =>
    let n := PyStr.len' items in
    let i' := if i <? 0 then i + n else i in
    if (i' <? 0) || (n <=? i') then Raise IndexError
    else match nth_error items (Z.to_nat i') with
         | Some x => Ok x
         | None => Raise IndexError
         end
  | JStr s =>
    let n := PyStr.len s in
    let i' := if i <? 0 then i + n else i in
    if (i' <? 0) || (n <=? i') then Raise IndexError
    else match nth_error s (Z.to_nat i') with
         | Some c => Ok (JStr [c])
         | None => Raise IndexError
         end
  | JObj _ => Raise (KeyError (str_of_Z i))
  | _ => Raise TypeError
  end.

(** [response_json["choices"][0]["message"]["content"]] *)
Definition content_of (response_json : json) : result json :=
  (choices <- getitem_key response_json (u "choices") ;;
   choice <- getitem_index choices 0 ;;
   message <- getitem_key choice (u "message") ;;
   getitem_key message (u "content"))%result.

(** The statements of the [try] block once [requests.post] has
    answered. *)
Definition try_body (outcome : result Response) : result str :=
  (response <- outcome ;;
   _ <- raise_for_status response ;;
   response_json <- response_json response ;;
   output_text <- content_of response_json ;;
   process_response_any output_text)%result.

Definition error_msg (file_path : str) (e : str) : str :=
  u "Qwen API error for " ++ file_path ++ u ": " ++ e.

Definition error_dict (msg : str) : json := JObj [ (u "error", JStr msg) ].

(** The [try] statement: the element appended to [results], unless an
    exception other than [RequestException] leaves it. *)
Definition try_request (file_path : str) (req : Request) : M E json :=
  fun st =>
    let '(outcome, remote') := requests_post E (remote st) req in
    let st' := {| remote := remote'; trace := trace st ++ [EvPost req] |} in
    match try_body outcome with
    | Ok processed_response => (Ok (JStr processed_response), st')
    | Raise e =>
      match as_RequestException e with
      | Some text => (Ok (error_dict (error_msg file_path text)), st')
      | None => (Raise e, st')
      end
    end.

(** The body of the [for] loop of [inference]. *)
Definition process_item (input_data : list Item) (file_path : str)
  : M E json :=
  _ <- load_image_data file_path DEFAULT_MAX_WIDTH DEFAULT_MAX_HEIGHT ;;
  image_data_url <- image_to_data_url file_path ;;
  text <- lift (first_text_input input_data) ;;
  try_request file_path (build_request text image_data_url).

Fixpoint inference_loop (input_data : list Item) (file_paths : list str)
                        (results : list json) : M E (list json) :=
  match file_paths with
  | [] => ret results
  | file_path :: rest =>
    r <- process_item input_data file_path ;;
    inference_loop input_data rest (results ++ [r])
  end.

(** [inference(self, input_data, mode)] *)
Definition inference (input_data : list Item) (mode : option str)
  : M E (list json) :=
  match mode with
  | Some m =>
    if str_eqb m (u "static") then ret [get_simple_json E]
    else inference_loop input_data (_extract_file_paths input_data) []
  | None => inference_loop input_data (_extract_file_paths input_data) []
  end.

End Methods.

Arguments process_item E self input_data file_path _ : simpl never.

(** [mode == "static"] *)
Definition is_static (mode : option str) : bool :=
  match mode with
  | Some m => str_eqb m (u "static")
  | None => false
  end.

(** The paths an item lists: [data.get("file_path", [])]. *)
Definition listed_paths (data : Item) : list str :=
  match file_path data with
  | Some paths => paths
  | None => []
  end.

Definition has_file_path (data : Item) : bool :=
  match file_path data with
  | Some _ => true
  | None => false
  end.

(** The image part of an outgoing request:
    [payload["messages"][1]["content"][1]["image_url"]["url"]]. *)
Definition image_url_of (req : Request) : result json :=
  (msgs <- getitem_key (json_payload req) (u "messages") ;;
   user <- getitem_index msgs 1 ;;
   content <- getitem_key user (u "content") ;;
   part <- getitem_index content 1 ;;
   image_url <- getitem_key part (u "image_url") ;;
   getitem_key image_url (u "url"))%result.

(** The requests a trace has posted, oldest first. *)
Definition posted (tr : list event) : list Request :=
  flat_map (fun ev => match ev with EvPost req => [req] | _ => [] end) tr.

(** An element of a result list that has the error-tagged shape. *)
Definition is_error_tagged (r : json) : bool :=
  match r with
  | JObj [(k, JStr _)] => str_eqb k (u "error")
  | _ => false
  end.

(** Step 1 of the extraction as the specification words it: the content
    between the opening fence and the next closing fence, and the slice
    from the start of the fenced content to the end when no closing fence
    follows. *)
Definition spec_fenced_text (raw : str) : str :=
  if PyStr.contains (u "```json") raw then
    let start := PyStr.find raw (u "```json") + 7 in
    let stop := PyStr.find_from raw (u "```") start in
    if stop =? -1 then PyStr.slice raw start (PyStr.len raw)
    else PyStr.slice raw start stop
  else raw.

(** Steps 2 to 6 of the extraction, applied to the text step 1 selects. *)
Definition spec_extract_structured (raw : str) : str :=
  match Json.loads (clean (spec_fenced_text raw)) with
  | Some v => Json.dumps v 2
  | None => raw
  end.

(* ================================================================= *)
(** ** A concrete environment *)

(** A process running in [/srv/app] with two image files on disk and an
    endpoint that plays back a list of prepared answers, then refuses
    connections. *)
Module Demo.

Definition cwd : str := u "/srv/app".

Definition WIDE : str := u "/data/wide.png".
Definition SMALL : str := u "/data/small.png".
Definition MISSING : str := u "/no/such/file.png".

Definition wide_raw : list byte := [x89; x50; x4e; x47; x0d; x0a; x1a].
Definition small_raw : list byte := [x89; x50; x4e; x47].

Definition open (path : str) : result (Z * Z) :=
  if str_eqb path WIDE then Ok (2000, 100)
  else if str_eqb path SMALL then Ok (800, 600)
  else Raise (FileNotFoundError path).

(** Pillow refuses a target size with a side below one pixel. *)
Definition resize (path : str) (size : Z * Z) : option exn :=
  if (fst size <? 1) || (snd size <? 1)
  then Some (ValueError (u "height and width must be > 0"))
  else None.

Definition read (path : str) : result (list byte) :=
  if str_eqb path WIDE then Ok wide_raw
  else if str_eqb path SMALL then Ok small_raw
  else Raise (FileNotFoundError path).

Definition post (answers : list (result Response)) (req : Request)
  : result Response * list (result Response) :=
  match answers with
  | [] => (Raise (RequestException (u "Connection refused")), [])
  | a :: rest => (a, rest)
  end.

Definition env : Env :=
  {| Remote := list (result Response);
     abspath := Posix.abspath cwd;
     Image_open := open;
     Image_resize := resize;
     file_read := read;
     requests_post := post;
     get_simple_json := JStr (u "{}") |}.

Definition client : QwenAPIInference :=
  {| api_url := u "https://openrouter.ai/api/v1/chat/completions";
     api_key := u "sk-demo" |}.

Definition answer (status : Z) (why : str) (body : result json) : Response :=
  {| status_code := status;
     reason := why;
     response_url := api_url client;
     response_json := body |}.

(** A success whose body carries [content] at the expected place. *)
Definition reply (content : json) : result Response :=
  Ok (answer 200 (u "OK")
        (Ok (JObj [ (u "choices",
                     JArr [ JObj [ (u "message",
                                   JObj [ (u "content", content) ]) ] ]) ]))).

(** A success whose body is the empty object. *)
Definition empty_body : result Response :=
  Ok (answer 200 (u "OK") (Ok (JObj []))).

Definition server_error : result Response :=
  Ok (answer 503 (u "Service Unavailable") (Raise (ValueError (u "no body")))).

Definition start (answers : list (result Response)) : State env :=
  Build_State env answers [].



Definition item (paths : list string) (text : string) : Item :=
  {| file_path := Some (List.map u paths); text_input := Some (u text) |}.

End Demo.

(** [sub] occurs in [s] at index [k]. *)
Definition occurs_at (sub s : str) (k : Z) : Prop :=
  0 <= k <= PyStr.len s /\
  PyStr.startswith sub (skipn (Z.to_nat k) s) = true.

(** The state once an iteration has opened and read the file at [p]. *)
Definition after_files {E : Env} (p : str) (st : State E) : State E :=
  log (EvFileRead p) (log (EvImageOpen p) st).

(** The state once the request [req] of an iteration has been answered,
    the endpoint having moved to [remote']. *)
Definition after_post {E : Env} (p : str) (req : Request)
           (remote' : Remote E) (st : State E) : State E :=
  {| remote := remote'; trace := trace (after_files p st) ++ [EvPost req] |}.

(** The worklist [paths] is processed from state [st] without any
    exception leaving an iteration: [rs] are the elements appended, in
    order, and [st'] is the state reached. *)
Inductive processes (E : Env) (self : QwenAPIInference)
          (input_data : list Item)
  : State E -> list str -> list json -> State E -> Prop :=
| processes_nil (st : State E) :
    processes E self input_data st [] [] st
| processes_cons (st st1 st2 : State E) (p : str) (r : json)
                 (ps : list str) (rs : list json) :
    process_item E self input_data p st = (Ok r, st1) ->
    processes E self input_data st1 ps rs st2 ->
    processes E self input_data st (p :: ps) (r :: rs) st2.



(** The body decoded from a successful answer has no string at
    [choices[0].message.content]: the subscripts raise [e], or they reach
    a value that is not a [str] and on which [process_response] raises
    [e]. *)
Definition content_unusable (body : json) (e : exn) : Prop :=
  content_of body = Raise e
  \/ (exists v, content_of body = Ok v
                /\ (forall s, v <> JStr s)
                /\ process_response_any v = Raise e).

(* ================================================================= *)
(** ** Quantities of the resize arithmetic *)

Local Open Scope Q_scope.

(** Half the distance between 1 and the next binary64 number: 2^-53. *)
Definition unit_roundoff : Q := 1 # 9007199254740992.

(** The three floats of [new_size] at the default bounds. *)
Definition aspect (w h : Z) : Q := Float64.round (inject_Z w / inject_Z h).

Definition scaled_width (w h : Z) : Q :=
  Float64.round (inject_Z 1750 * aspect w h).

Definition scaled_height (w h : Z) : Q :=
  Float64.round (inject_Z 1250 / aspect w h).

(** The scale that fits [w] x [h] into the default box: the smaller of
    [1250 / w] and [1750 / h]. *)
Definition fit_scale (w h : Z) : Q :=
  if (1750 * w <=? 1250 * h)%Z then 1750 / inject_Z h else 1250 / inject_Z w.

Local Close Scope Q_scope.

(** The same arithmetic through the IEEE-754 operations of the standard
    library's [SpecFloat], at [prec = 53] and [emax = 1024]. *)
Definition SF_of_int (n : Z) : spec_float := binary_normalize 53 1024 n 0 false.

Definition Q_of_SF (x : spec_float) : Q :=
  match x with
  | S754_finite false m e => (inject_Z (Z.pos m) * Float64.pow2 e)%Q
  | S754_finite true m e => (- (inject_Z (Z.pos m) * Float64.pow2 e))%Q
  | _ => 0%Q
  end.

Definition agrees_with_ieee (wh : Z * Z) : bool :=
  let (w, h) := wh in
  let a := SFdiv 53 1024 (SF_of_int w) (SF_of_int h) in
  Qeq_bool (Q_of_SF a) (aspect w h)
  && Qeq_bool (Q_of_SF (SFmul 53 1024 (SF_of_int 1750) a)) (scaled_width w h)
  && Qeq_bool (Q_of_SF (SFdiv 53 1024 (SF_of_int 1250) a)) (scaled_height w h).

Definition sample_sizes : list (Z * Z) :=
  [ (2000, 100); (100, 2000); (234, 1820); (2500, 3500); (1300, 1800);
    (1251, 1); (1, 1751); (4032, 3024); (3024, 4032); (100000, 100);
    (2000, 1); (3, 5250); (2480, 3508); (1275, 1650); (2147483647, 1);
    (1, 2147483647); (2147483647, 2147483646); (1920, 1080); (1251, 1751) ].

(** A step that succeeds leaves strictly less text; no scanning step of
    [scanstring] or of the constants runs out of budget. *)
Definition consumes {A : Type} (s : str) (r : Json.pres A) : Prop :=
  r <> Json.PFuel /\ forall v rest,
    r = Json.POk v rest -> (List.length rest < List.length s)%nat.

(* ================================================================= *)
(** ** Notions used by the further properties *)


(** The text part of an outgoing request:
    [payload["messages"][1]["content"][0]["text"]]. *)
Definition text_of (req : Request) : result json :=
  (msgs <- getitem_key (json_payload req) (u "messages") ;;
   user <- getitem_index msgs 1 ;;
   content <- getitem_key user (u "content") ;;
   part <- getitem_index content 0 ;;
   getitem_key part (u "text"))%result.

(** The events of one iteration that reaches its request. *)
Definition item_events (pr : str * Request) : list event :=
  [EvImageOpen (fst pr); EvFileRead (fst pr); EvPost (snd pr)].

(** [req] is the request the loop builds for the path [p]. *)
Definition request_of (E : Env) (self : QwenAPIInference)
           (input_data : list Item) (p : str) (req : Request) : Prop :=
  exists raw text,
    file_read E p = Ok raw
    /\ first_text_input input_data = Ok text
    /\ req = build_request self text (data_url raw).

(** The text [part] occurs in [whole] as a contiguous piece. *)
Definition piece_of (part whole : str) : Prop :=
  exists before after, whole = before ++ part ++ after.

Definition BACKTICK : char := 96%N.
Definition SQUOTE : char := 39%N.

(** The characters base64 text is made of: letters, digits, [+], [/] and
    the padding [=]. *)
Definition is_b64_char (c : char) : bool :=
  ((65 <=? c) && (c <=? 90) || (97 <=? c) && (c <=? 122)
   || (48 <=? c) && (c <=? 57) || (c =? 43) || (c =? 47) || (c =? 61))%N.

(** A second process: a folder of scans with unusual sizes, every file
    holding the same bytes, in front of the endpoint of [Demo]. *)
Module Gallery.

Definition SLIVER : str := u "/scans/sliver.png".
Definition STRIP : str := u "/scans/strip.png".
Definition BLANK : str := u "/scans/blank.png".
Definition EMPTY : str := u "/scans/empty.png".

Definition scan_raw : list byte := [xff; xd8; xff; xe0; x00].

Definition open (path : str) : result (Z * Z) :=
  if str_eqb path SLIVER then Ok (4000, 1)
  else if str_eqb path STRIP then Ok (1, 4000)
  else if str_eqb path BLANK then Ok (3000, 0)
  else if str_eqb path EMPTY then Ok (0, 0)
  else Raise (FileNotFoundError path).

Definition read (path : str) : result (list byte) :=
  match open path with
  | Ok _ => Ok scan_raw
  | Raise e => Raise e
  end.

Definition env : Env :=
  {| Remote := list (result Response);
     abspath := Posix.abspath Demo.cwd;
     Image_open := open;
     Image_resize := Demo.resize;
     file_read := read;
     requests_post := Demo.post;
     get_simple_json := JStr (u "{}") |}.

End Gallery.

(** Printable ASCII, or a line feed. *)
Definition is_plain (c : char) : bool :=
  ((32 <=? c) && (c <=? 126) || (c =? 10))%N.

(** A code point of Unicode: what a character of a Python [str] is. *)
Definition is_code_point (c : char) : bool := (c <? 1114112)%N.


(** A scanning step that, when it succeeds, gives a value with [P] and
    leaves code points unread. *)
Definition yields {A : Type} (P : A -> Prop) (r : Json.pres A) : Prop :=
  match r with
  | Json.POk a rest => P a /\ forallb is_code_point rest = true
  | Json.PFail => True
  | Json.PFuel => True
  end.

(* ================================================================= *)
(** * Properties *)

(** ** Text search *)

Lemma len_nonneg (s : str) : 0 <= PyStr.len s.
Proof. unfold PyStr.len, PyStr.len'. lia. Qed.

Lemma len_cons (c : char) (s : str) : PyStr.len (c :: s) = PyStr.len s + 1.
Proof. unfold PyStr.len, PyStr.len'. cbn [List.length]. lia. Qed.

Lemma find_at_range (sub : str) :
  forall s i, 0 <= i ->
    PyStr.find_at sub s i = -1 \/
    (i <= PyStr.find_at sub s i <= i + PyStr.len s).
Proof.
  induction s as [|c t IH]; intros i Hi; cbn [PyStr.find_at].
  - destruct (PyStr.startswith sub []); [right|left]; rewrite ?len_cons;
      unfold PyStr.len, PyStr.len'; cbn; lia.
  - destruct (PyStr.startswith sub (c :: t)).
    + right. pose proof (len_nonneg (c :: t)). lia.
    + destruct (IH (i + 1)) as [H|H]; [lia|left; exact H|right].
      rewrite len_cons. lia.
Qed.

Lemma find_at_found (sub : str) :
  forall s i, 0 <= i -> PyStr.find_at sub s i <> -1 ->
    PyStr.startswith sub (skipn (Z.to_nat (PyStr.find_at sub s i - i)) s) = true
    /\ forall k, i <= k < PyStr.find_at sub s i ->
         PyStr.startswith sub (skipn (Z.to_nat (k - i)) s) = false.
Proof.
  induction s as [|c t IH]; intros i Hi; cbn [PyStr.find_at].
  - destruct (PyStr.startswith sub []) eqn:Hp; [|congruence]. intros _.
    rewrite Z.sub_diag. cbn. split; [exact Hp|lia].
  - destruct (PyStr.startswith sub (c :: t)) eqn:Hp.
    + intros _. rewrite Z.sub_diag. cbn [Z.to_nat skipn]. split; [exact Hp|lia].
    + intros Hne. destruct (IH (i + 1) ltac:(lia) Hne) as [Hhit Hmiss].
      destruct (find_at_range sub t (i + 1) ltac:(lia)) as [H|H]; [congruence|].
      split.
      * replace (Z.to_nat (PyStr.find_at sub t (i + 1) - i))
          with (S (Z.to_nat (PyStr.find_at sub t (i + 1) - (i + 1)))) by lia.
        exact Hhit.
      * intros k Hk. destruct (Z.eq_dec k i) as [->|Hki].
        -- rewrite Z.sub_diag. exact Hp.
        -- replace (Z.to_nat (k - i)) with (S (Z.to_nat (k - (i + 1)))) by lia.
           apply Hmiss. lia.
Qed.

Lemma find_at_none (sub : str) :
  forall s i, PyStr.find_at sub s i = -1 -> 0 <= i ->
    forall k, i <= k <= i + PyStr.len s ->
      PyStr.startswith sub (skipn (Z.to_nat (k - i)) s) = false.
Proof.
  induction s as [|c t IH]; intros i; cbn [PyStr.find_at].
  - destruct (PyStr.startswith sub []) eqn:Hp; [lia|]. intros _ _ k Hk.
    destruct (Z.to_nat (k - i)); exact Hp.
  - destruct (PyStr.startswith sub (c :: t)) eqn:Hp; [lia|].
    intros Hnone Hi k Hk. rewrite len_cons in Hk.
    destruct (Z.eq_dec k i) as [->|Hki].
    + rewrite Z.sub_diag. exact Hp.
    + replace (Z.to_nat (k - i)) with (S (Z.to_nat (k - (i + 1)))) by lia.
      apply (IH (i + 1) Hnone); lia.
Qed.

Lemma skipn_len (s : str) (n : Z) :
  0 <= n <= PyStr.len s -> PyStr.len (skipn (Z.to_nat n) s) = PyStr.len s - n.
Proof.
  intros H. unfold PyStr.len, PyStr.len' in *. rewrite length_skipn. lia.
Qed.

(** [find_from] returns the first occurrence at or after [start]. *)
Lemma find_from_found (s sub : str) (start : Z) :
  0 <= start <= PyStr.len s ->
  PyStr.find_from s sub start <> -1 ->
  start <= PyStr.find_from s sub start
  /\ occurs_at sub s (PyStr.find_from s sub start)
  /\ forall k, start <= k < PyStr.find_from s sub start -> ~ occurs_at sub s k.
Proof.
  intros Hs. unfold PyStr.find_from.
  destruct (start <? 0) eqn:Hneg; [lia|].
  destruct (PyStr.len s <? start) eqn:Hlen; [lia|]. intros Hne.
  destruct (find_at_found sub _ start ltac:(lia) Hne) as [Hhit Hmiss].
  destruct (find_at_range sub (skipn (Z.to_nat start) s) start ltac:(lia))
    as [H|H]; [congruence|].
  rewrite skipn_len in H by lia.
  set (j := PyStr.find_at sub (skipn (Z.to_nat start) s) start) in *.
  rewrite skipn_skipn in Hhit.
  replace (Z.to_nat (j - start) + Z.to_nat start)%nat with (Z.to_nat j) in Hhit
    by lia.
  split; [lia|]. split; [split; [lia|exact Hhit]|].
  intros k Hk [_ Hocc]. specialize (Hmiss k Hk).
  rewrite skipn_skipn in Hmiss.
  replace (Z.to_nat (k - start) + Z.to_nat start)%nat with (Z.to_nat k) in Hmiss
    by lia.
  congruence.
Qed.

(** [find_from] answers [-1] only when there is no occurrence at or after
    [start]. *)
Lemma find_from_none (s sub : str) (start : Z) :
  0 <= start <= PyStr.len s ->
  PyStr.find_from s sub start = -1 ->
  forall k, start <= k -> ~ occurs_at sub s k.
Proof.
  intros Hs. unfold PyStr.find_from.
  destruct (start <? 0) eqn:Hneg; [lia|].
  destruct (PyStr.len s <? start) eqn:Hlen; [lia|]. intros Hnone k Hk [Hr Hocc].
  pose proof (find_at_none sub _ start Hnone ltac:(lia) k) as Hmiss.
  rewrite skipn_len in Hmiss by lia.
  specialize (Hmiss ltac:(lia)). rewrite skipn_skipn in Hmiss.
  replace (Z.to_nat (k - start) + Z.to_nat start)%nat with (Z.to_nat k) in Hmiss
    by lia.
  congruence.
Qed.

Lemma startswith_length (sub : str) :
  forall s, PyStr.startswith sub s = true -> PyStr.len sub <= PyStr.len s.
Proof.
  induction sub as [|a sub IH]; intros s H.
  - apply len_nonneg.
  - destruct s as [|b s]; cbn [PyStr.startswith] in H; [discriminate|].
    apply andb_true_iff in H. destruct H as [_ H]. specialize (IH s H).
    rewrite !len_cons. lia.
Qed.

Lemma occurs_at_bound (sub s : str) (k : Z) :
  occurs_at sub s k -> k + PyStr.len sub <= PyStr.len s.
Proof.
  intros [Hk H]. apply startswith_length in H.
  rewrite skipn_len in H by lia. lia.
Qed.

(* ================================================================= *)
(** ** [process_response] *)

Lemma process_response_unfold (raw : str) :
  process_response raw =
  match Json.loads (clean (fence_step raw)) with
  | Some v => Json.dumps v 2
  | None => fence_step raw
  end.
Proof. reflexivity. Qed.

Lemma contains_find (sub s : str) :
  PyStr.contains sub s = true -> PyStr.find s sub <> -1.
Proof. unfold PyStr.contains. intros H. apply Z.leb_le in H. lia. Qed.

Lemma slice_between (s : str) (a b : Z) :
  0 <= a <= b -> b <= PyStr.len s ->
  PyStr.slice s a b = firstn (Z.to_nat (b - a)) (skipn (Z.to_nat a) s).
Proof.
  intros Ha Hb. unfold PyStr.slice, PyStr.clamp.
  destruct (a <? 0) eqn:Ea; [lia|]. destruct (b <? 0) eqn:Eb; [lia|].
  rewrite !Z.min_l by lia.
  destruct (b <=? a) eqn:Eba; [|reflexivity].
  replace b with a by lia. rewrite Z.sub_diag. reflexivity.
Qed.

(** C5, as the code has it: with an opening ["```json"] fence in the text,
    [process_response] works on the text between the first opening fence
    and the first closing fence after it, with surrounding whitespace
    removed; when no closing fence follows, it works on the whole input
    text, opening fence included. *)
Theorem fence_step_spec (raw : str) :
  PyStr.contains (u "```json") raw = true ->
  let opening := PyStr.find raw (u "```json") in
  let start := opening + 7 in
  let stop := PyStr.find_from raw (u "```") start in
  (occurs_at (u "```json") raw opening
   /\ forall k, 0 <= k < opening -> ~ occurs_at (u "```json") raw k)
  /\ (stop <> -1 ->
      start <= stop
      /\ occurs_at (u "```") raw stop
      /\ (forall k, start <= k < stop -> ~ occurs_at (u "```") raw k)
      /\ PyStr.slice raw start stop
         = firstn (Z.to_nat (stop - start)) (skipn (Z.to_nat start) raw)
      /\ fence_step raw = PyStr.strip (PyStr.slice raw start stop))
  /\ (stop = -1 ->
      (forall k, start <= k -> ~ occurs_at (u "```") raw k)
      /\ fence_step raw = raw)
  /\ process_response raw =
     match Json.loads (clean (fence_step raw)) with
     | Some v => Json.dumps v 2
     | None => fence_step raw
     end.
Proof.
  intros Hin opening start stop.
  pose proof (contains_find _ _ Hin) as Hfound.
  pose proof (len_nonneg raw) as Hlen.
  destruct (find_from_found raw (u "```json") 0 ltac:(lia) Hfound)
    as (Hpos & Hocc & Hfirst).
  fold (PyStr.find raw (u "```json")) in Hpos, Hocc, Hfirst.
  fold opening in Hpos, Hocc, Hfirst.
  pose proof (occurs_at_bound _ _ _ Hocc) as Hbound.
  change (PyStr.len (u "```json")) with 7 in Hbound.
  assert (Hstart : 0 <= start <= PyStr.len raw) by (unfold start; lia).
  split; [split; assumption|].
  split; [|split].
  - intros Hstop.
    destruct (find_from_found raw (u "```") start Hstart Hstop)
      as (Hle & Hocc' & Hfirst').
    fold stop in Hle, Hocc', Hfirst'.
    split; [exact Hle|]. split; [exact Hocc'|]. split; [exact Hfirst'|].
    split.
    + apply slice_between; [lia|]. destruct Hocc' as [? _]. lia.
    + unfold fence_step. rewrite Hin. fold opening start stop.
      destruct (stop =? -1) eqn:E; [apply Z.eqb_eq in E; lia|reflexivity].
  - intros Hstop. split.
    + apply (find_from_none raw (u "```") start Hstart Hstop).
    + unfold fence_step. rewrite Hin. fold opening start stop.
      rewrite Hstop. reflexivity.
  - reflexivity.
Qed.

Lemma fence_step_spec_witness :
  let raw := u "Here: ```json {'a': [1, 'x']} ``` bye" in
  PyStr.contains (u "```json") raw = true
  /\ fence_step raw = u "{'a': [1, 'x']}"
  /\ PyStr.find_from raw (u "```") (PyStr.find raw (u "```json") + 7) = 30.
Proof.
  intros raw.
  assert (Hin : PyStr.contains (u "```json") raw = true) by reflexivity.
  split; [exact Hin|].
  destruct (fence_step_spec raw Hin) as (_ & Hclosed & _ & _).
  assert (Hstop : PyStr.find_from raw (u "```")
                    (PyStr.find raw (u "```json") + 7) = 30)
    by (vm_compute; reflexivity).
  split; [|exact Hstop].
  destruct Hclosed as (_ & _ & _ & _ & Hstep).
  - rewrite Hstop. discriminate.
  - rewrite Hstep. vm_compute. reflexivity.
Defined.

(** C5 as stated fails: without a closing fence the code keeps the whole
    text, where the statement takes the slice after the opening fence. *)
Lemma no_closing_fence_keeps_whole_text :
  let raw := u "```json{'a': 1}" in
  PyStr.contains (u "```json") raw = true
  /\ PyStr.find_from raw (u "```") (PyStr.find raw (u "```json") + 7) = -1
  /\ fence_step raw = raw
  /\ spec_fenced_text raw = u "{'a': 1}"
  /\ fence_step raw <> spec_fenced_text raw
  /\ process_response raw = raw
  /\ process_response raw <> spec_extract_structured raw.
Proof.
  vm_compute. repeat split; try reflexivity; discriminate.
Qed.

(** C4: on a text whose fenced block does not parse, the code returns the
    stripped content of the block, not the text it was given. *)
Theorem process_response_returns_fenced_text :
  let raw := u "Result: ```json not json```" in
  Json.loads (clean (fence_step raw)) = None
  /\ process_response raw = u "not json"
  /\ process_response raw <> raw.
Proof.
  vm_compute. repeat split; try reflexivity; discriminate.
Qed.

(** Without a fence to extract, a parse failure does return the input. *)
Lemma process_response_fallback (raw : str) :
  Json.loads (clean (fence_step raw)) = None ->
  process_response raw = fence_step raw.
Proof. intros H. rewrite process_response_unfold, H. reflexivity. Qed.

(* ================================================================= *)
(** ** The worklist *)

Lemma extract_file_paths_app (E : Env) (a b : list Item) :
  _extract_file_paths E (a ++ b)
  = _extract_file_paths E a ++ _extract_file_paths E b.
Proof. unfold _extract_file_paths. apply flat_map_app. Qed.

(** C10: an item without the ["file_path"] key adds nothing to the
    worklist and raises nothing; the worklist is the concatenation, in
    order, of the absolute paths of the items that have the key. *)
Theorem extract_file_paths_spec (E : Env) (input_data : list Item) :
  _extract_file_paths E input_data
  = List.concat (List.map (fun data => List.map (abspath E) (listed_paths data))
                          (filter has_file_path input_data))
  /\ (forall pre data post,
        file_path data = None ->
        _extract_file_paths E (pre ++ data :: post)
        = _extract_file_paths E (pre ++ post)).
Proof.
  split.
  - induction input_data as [|d rest IH]; [reflexivity|].
    change (_extract_file_paths E (d :: rest))
      with (List.map (abspath E) (listed_paths d) ++ _extract_file_paths E rest).
    rewrite IH. cbn [filter].
    assert (Hd : has_file_path d = true
                 \/ (has_file_path d = false /\ listed_paths d = [])).
    { unfold has_file_path, listed_paths. destruct (file_path d); auto. }
    destruct Hd as [Hd|[Hd Hnil]]; rewrite Hd.
    + reflexivity.
    + rewrite Hnil. reflexivity.
  - intros pre data post Hnone.
    rewrite !extract_file_paths_app.
    change (_extract_file_paths E (data :: post))
      with (List.map (abspath E) (listed_paths data)
              ++ _extract_file_paths E post).
    unfold listed_paths. rewrite Hnone. reflexivity.
Qed.

Lemma extract_file_paths_spec_witness :
  let bare := {| file_path := None; text_input := Some (u "extract") |} in
  let a := Demo.item ["a.png"; "/data/../b.png"]%string "first" in
  let b := Demo.item ["c.png"]%string "second" in
  file_path bare = None
  /\ _extract_file_paths Demo.env [a; bare; b]
     = _extract_file_paths Demo.env [a; b]
  /\ _extract_file_paths Demo.env [a; bare; b]
     = [u "/srv/app/a.png"; u "/b.png"; u "/srv/app/c.png"].
Proof.
  intros bare a b. split; [reflexivity|]. split.
  - exact (proj2 (extract_file_paths_spec Demo.env [a; bare; b])
                 [a] bare [b] eq_refl).
  - vm_compute. reflexivity.
Defined.

(* ================================================================= *)
(** ** One iteration of the loop *)

Section Iteration.

Variable E : Env.
Variable self : QwenAPIInference.
Variable input_data : list Item.

Lemma process_item_eq (p : str) (st : State E) :
  process_item E self input_data p st =
  match load_size E p DEFAULT_MAX_WIDTH DEFAULT_MAX_HEIGHT with
  | Raise e => (Raise e, log (EvImageOpen p) st)
  | Ok _ =>
    match file_read E p with
    | Raise e => (Raise e, after_files p st)
    | Ok raw =>
      match first_text_input input_data with
      | Raise e => (Raise e, after_files p st)
      | Ok text =>
        try_request E p (build_request self text (data_url raw))
                    (after_files p st)
      end
    end
  end.
Proof.
  unfold process_item, bind, load_image_data, image_to_data_url, lift,
    after_files.
  destruct (load_size E p DEFAULT_MAX_WIDTH DEFAULT_MAX_HEIGHT);
    [|reflexivity].
  destruct (file_read E p); [|reflexivity].
  destruct (first_text_input input_data); reflexivity.
Qed.

Lemma try_request_trace (p : str) (req : Request) (st : State E) :
  trace (snd (try_request E p req st)) = trace st ++ [EvPost req].
Proof.
  unfold try_request. destruct (requests_post E (remote st) req) as [o rm].
  destruct (try_body o) as [s|e]; [reflexivity|].
  destruct (as_RequestException e); reflexivity.
Qed.



(** Subscripting and [process_response] never raise what the handler
    catches. *)
Lemma getitem_key_exn (v : json) (k : str) (e : exn) :
  getitem_key v k = Raise e -> as_RequestException e = None.
Proof.
  destruct v; cbn; try (intros H; inversion H; reflexivity).
  destruct (dict_get members k); intros H; inversion H; reflexivity.
Qed.

Lemma getitem_index_exn (v : json) (i : Z) (e : exn) :
  getitem_index v i = Raise e -> as_RequestException e = None.
Proof.
  destruct v; cbn; try (intros H; inversion H; reflexivity).
  - destruct ((_ <? 0) || (_ <=? _)); [intros H; inversion H; reflexivity|].
    destruct (nth_error s _); intros H; inversion H; reflexivity.
  - destruct ((_ <? 0) || (_ <=? _)); [intros H; inversion H; reflexivity|].
    destruct (nth_error items _); intros H; inversion H; reflexivity.
Qed.

Lemma content_of_exn (body : json) (e : exn) :
  content_of body = Raise e -> as_RequestException e = None.
Proof.
  unfold content_of, rbind.
  destruct (getitem_key body (u "choices")) as [c|e0] eqn:H1.
  2:{ intros H; inversion H; subst. eapply getitem_key_exn; eauto. }
  destruct (getitem_index c 0) as [c0|e0] eqn:H2.
  2:{ intros H; inversion H; subst. eapply getitem_index_exn; eauto. }
  destruct (getitem_key c0 (u "message")) as [m|e0] eqn:H3.
  2:{ intros H; inversion H; subst. eapply getitem_key_exn; eauto. }
  apply getitem_key_exn.
Qed.

Lemma process_response_any_exn (v : json) (e : exn) :
  process_response_any v = Raise e -> as_RequestException e = None.
Proof. destruct v; cbn; intros H; inversion H; reflexivity. Qed.

Lemma content_unusable_exn (body : json) (e : exn) :
  content_unusable body e -> as_RequestException e = None.
Proof.
  intros [H|(v & _ & _ & H)].
  - eapply content_of_exn; eauto.
  - eapply process_response_any_exn; eauto.
Qed.

Lemma try_body_unusable (response : Response) (body : json) (e : exn) :
  raise_for_status response = Ok tt ->
  response_json response = Ok body ->
  content_unusable body e ->
  try_body (Ok response) = Raise e.
Proof.
  intros Hs Hj Hc. unfold try_body, rbind. rewrite Hs, Hj.
  destruct Hc as [H|(v & Hv & _ & H)].
  - rewrite H. reflexivity.
  - rewrite Hv. exact H.
Qed.



(* =============================================================== *)
(** ** The loop *)



(** The loop runs through a prefix that raises nothing. *)
Lemma inference_loop_prefix (st st1 : State E) (pre : list str)
      (rs : list json) :
  processes E self input_data st pre rs st1 ->
  forall rest acc,
    inference_loop E self input_data (pre ++ rest) acc st
    = inference_loop E self input_data rest (acc ++ rs) st1.
Proof.
  induction 1 as [|st st1 st2 p r ps rs Hp _ IH]; intros rest acc.
  - rewrite app_nil_r. reflexivity.
  - cbn [app inference_loop]. unfold bind at 1. rewrite Hp.
    rewrite IH, <- app_assoc. reflexivity.
Qed.

(** The loop stops at the first iteration that raises. *)
Lemma inference_loop_raise (st st1 st2 : State E) (pre post : list str)
      (p : str) (rs acc : list json) (e : exn) :
  processes E self input_data st pre rs st1 ->
  process_item E self input_data p st1 = (Raise e, st2) ->
  inference_loop E self input_data (pre ++ p :: post) acc st = (Raise e, st2).
Proof.
  intros Hpre Hp. rewrite (inference_loop_prefix _ _ _ _ Hpre).
  cbn [inference_loop]. unfold bind. rewrite Hp. reflexivity.
Qed.

(** A list comes back only from a run in which no iteration raised. *)
Lemma inference_loop_ok (ps : list str) :
  forall acc st results st',
    inference_loop E self input_data ps acc st = (Ok results, st') ->
    exists rs, results = acc ++ rs
               /\ processes E self input_data st ps rs st'.
Proof.
  induction ps as [|p ps IH]; intros acc st results st' H.
  - cbn in H. inversion H; subst. exists []. rewrite app_nil_r.
    split; [reflexivity|constructor].
  - cbn [inference_loop] in H. unfold bind at 1 in H.
    destruct (process_item E self input_data p st) as [[r|e] st1] eqn:Hp;
      [|discriminate].
    destruct (IH _ _ _ _ H) as (rs & -> & Hrun).
    exists (r :: rs). rewrite <- app_assoc. split; [reflexivity|].
    econstructor; eauto.
Qed.

Lemma inference_not_static (mode : option str) (st : State E) :
  is_static mode = false ->
  inference E self input_data mode st
  = inference_loop E self input_data (_extract_file_paths E input_data) [] st.
Proof.
  unfold is_static, inference. destruct mode as [m|]; [|reflexivity].
  intros ->. reflexivity.
Qed.

End Iteration.

(* ================================================================= *)
(** ** [inference] *)

(** C9: with an empty worklist and outside static mode, [inference]
    returns the empty list and leaves the state as it was: no file is
    opened or read, no request is posted, and the text of the first item
    is not looked up, so an empty batch or a first item without
    ["text_input"] raises nothing. *)
Theorem inference_empty_worklist (E : Env) (self : QwenAPIInference)
        (input_data : list Item) (mode : option str) (st : State E) :
  is_static mode = false ->
  _extract_file_paths E input_data = [] ->
  inference E self input_data mode st = (Ok [], st).
Proof.
  intros Hmode Hnil. rewrite inference_not_static by exact Hmode.
  rewrite Hnil. reflexivity.
Qed.

Lemma inference_empty_worklist_witness :
  let bare := {| file_path := None; text_input := None |} in
  let empty := {| file_path := Some []; text_input := None |} in
  (is_static None = false
   /\ _extract_file_paths Demo.env [bare; empty] = []
   /\ first_text_input [bare; empty] = Raise (KeyError (u "text_input"))
   /\ inference Demo.env Demo.client [bare; empty] None (Demo.start [])
      = (Ok [], Demo.start []))
  /\ inference Demo.env Demo.client [] (Some (u "batch")) (Demo.start [])
     = (Ok [], Demo.start []).
Proof.
  intros bare empty. split.
  - split; [reflexivity|]. split; [reflexivity|]. split; [reflexivity|].
    apply (inference_empty_worklist Demo.env Demo.client [bare; empty] None);
      reflexivity.
  - apply (inference_empty_worklist Demo.env Demo.client [] (Some (u "batch")));
      reflexivity.
Defined.

(** C8: the request an iteration posts carries, as its image part, the
    text ["data:image/jpeg;base64,"] followed by the base64 encoding of
    the bytes read from the file; the size [load_image_data] returned,
    resized or not, does not enter the request. *)
Theorem request_carries_original_bytes (E : Env) (self : QwenAPIInference)
        (input_data : list Item) (p : str) (st : State E)
        (size : Z * Z) (raw : list byte) (text : str) :
  load_size E p DEFAULT_MAX_WIDTH DEFAULT_MAX_HEIGHT = Ok size ->
  file_read E p = Ok raw ->
  first_text_input input_data = Ok text ->
  let req := build_request self text (data_url raw) in
  trace (snd (process_item E self input_data p st))
  = trace st ++ [EvImageOpen p; EvFileRead p; EvPost req]
  /\ posted (trace (snd (process_item E self input_data p st)))
     = posted (trace st) ++ [req]
  /\ image_url_of req
     = Ok (JStr (u "data:image/jpeg;base64," ++ Base64.b64encode raw)).
Proof.
  intros Hload Hread Htext req.
  assert (Htrace : trace (snd (process_item E self input_data p st))
                   = trace st ++ [EvImageOpen p; EvFileRead p; EvPost req]).
  { rewrite process_item_eq, Hload, Hread, Htext, try_request_trace.
    cbn [after_files log trace]. rewrite <- !app_assoc. reflexivity. }
  split; [exact Htrace|]. split.
  - rewrite Htrace. unfold posted. rewrite flat_map_app. reflexivity.
  - reflexivity.
Qed.

Lemma request_carries_original_bytes_witness :
  let input := [Demo.item ["/data/wide.png"]%string "extract"] in
  let st := Demo.start [Demo.reply (JStr (u "{}"))] in
  load_size Demo.env Demo.WIDE DEFAULT_MAX_WIDTH DEFAULT_MAX_HEIGHT
  = Ok (1250, 62)
  /\ posted (trace (snd (process_item Demo.env Demo.client input Demo.WIDE st)))
     = [build_request Demo.client (u "extract") (data_url Demo.wide_raw)]
  /\ image_url_of
       (build_request Demo.client (u "extract") (data_url Demo.wide_raw))
     = Ok (JStr (u "data:image/jpeg;base64,iVBORw0KGg==")).
Proof.
  intros input st.
  assert (Hload : load_size Demo.env Demo.WIDE DEFAULT_MAX_WIDTH
                            DEFAULT_MAX_HEIGHT = Ok (1250, 62))
    by (vm_compute; reflexivity).
  split; [exact Hload|].
  destruct (request_carries_original_bytes
              Demo.env Demo.client input Demo.WIDE st (1250, 62)
              Demo.wide_raw (u "extract") Hload eq_refl eq_refl)
    as (_ & Hposted & Hurl).
  split; [exact Hposted|]. rewrite Hurl. vm_compute. reflexivity.
Defined.

(** C1 as stated fails: for the one-item batch naming a file that does not
    exist, [inference] raises [FileNotFoundError]; no list, and so no
    error-tagged element, comes back. *)
Lemma missing_file_raises :
  let input := [Demo.item ["/no/such/file.png"]%string "extract"] in
  let st := Demo.start [Demo.reply (JStr (u "{}"))] in
  inference Demo.env Demo.client input None st
  = (Raise (FileNotFoundError Demo.MISSING), log (EvImageOpen Demo.MISSING) st)
  /\ ~ (exists r st',
          inference Demo.env Demo.client input None st = (Ok [r], st')
          /\ is_error_tagged r = true).
Proof.
  intros input st.
  assert (H : inference Demo.env Demo.client input None st
              = (Raise (FileNotFoundError Demo.MISSING),
                 log (EvImageOpen Demo.MISSING) st))
    by (vm_compute; reflexivity).
  split; [exact H|]. intros (r & st' & Hok & _). rewrite H in Hok.
  discriminate.
Qed.

(** C1, as the code has it: when the image of a worklist path cannot be
    loaded, or its file cannot be read, and the paths before it were
    processed, [inference] raises that exception.  No list is returned,
    nothing is posted for the path, and the paths after it are not
    touched. *)
Theorem load_failure_aborts_batch (E : Env) (self : QwenAPIInference)
        (input_data : list Item) (mode : option str) (st st1 : State E)
        (pre post : list str) (p : str) (rs : list json) (e : exn) :
  is_static mode = false ->
  _extract_file_paths E input_data = pre ++ p :: post ->
  processes E self input_data st pre rs st1 ->
  (load_size E p DEFAULT_MAX_WIDTH DEFAULT_MAX_HEIGHT = Raise e ->
   inference E self input_data mode st = (Raise e, log (EvImageOpen p) st1))
  /\ (forall size,
        load_size E p DEFAULT_MAX_WIDTH DEFAULT_MAX_HEIGHT = Ok size ->
        file_read E p = Raise e ->
        inference E self input_data mode st = (Raise e, after_files p st1)).
Proof.
  intros Hmode Hlist Hpre. rewrite inference_not_static by exact Hmode.
  rewrite Hlist. split.
  - intros Hload. apply (inference_loop_raise E self input_data st st1 _ pre
                           post p rs [] e Hpre).
    rewrite process_item_eq, Hload. reflexivity.
  - intros size Hload Hread.
    apply (inference_loop_raise E self input_data st st1 _ pre post p rs [] e
             Hpre).
    rewrite process_item_eq, Hload, Hread. reflexivity.
Qed.

Lemma load_failure_aborts_batch_witness :
  let input := [Demo.item ["/data/small.png"; "/no/such/file.png";
                           "/data/wide.png"]%string "extract"] in
  let st := Demo.start [Demo.reply (JStr (u "{'total': 3}"))] in
  let st1 := after_post Demo.SMALL
               (build_request Demo.client (u "extract")
                              (data_url Demo.small_raw))
               ([] : Remote Demo.env) st in
  processes Demo.env Demo.client input st [Demo.SMALL]
            [JStr (Json.dumps (JObj [(u "total", JInt 3)]) 2)] st1
  /\ inference Demo.env Demo.client input None st
     = (Raise (FileNotFoundError Demo.MISSING),
        log (EvImageOpen Demo.MISSING) st1).
Proof.
  intros input st st1.
  assert (Hpre : processes Demo.env Demo.client input st [Demo.SMALL]
                   [JStr (Json.dumps (JObj [(u "total", JInt 3)]) 2)] st1).
  { eapply processes_cons; [vm_compute; reflexivity|apply processes_nil]. }
  split; [exact Hpre|].
  apply (proj1 (load_failure_aborts_batch
                  Demo.env Demo.client input None st st1 [Demo.SMALL]
                  [Demo.WIDE] Demo.MISSING _
                  (FileNotFoundError Demo.MISSING)
                  eq_refl eq_refl Hpre)).
  vm_compute. reflexivity.
Defined.




(** C3 as stated fails: an HTTP success whose body is the empty object
    makes [inference] raise [KeyError]; nothing is appended for the item
    and no list comes back. *)
Lemma empty_body_raises :
  let input := [Demo.item ["/data/wide.png"; "/data/small.png"]%string
                          "extract"] in
  let st := Demo.start [Demo.empty_body; Demo.reply (JStr (u "{}"))] in
  raise_for_status (Demo.answer 200 (u "OK") (Ok (JObj []))) = Ok tt
  /\ content_of (JObj []) = Raise (KeyError (u "choices"))
  /\ fst (inference Demo.env Demo.client input None st)
     = Raise (KeyError (u "choices"))
  /\ ~ (exists results st',
          inference Demo.env Demo.client input None st = (Ok results, st')).
Proof.
  intros input st.
  assert (H : fst (inference Demo.env Demo.client input None st)
              = Raise (KeyError (u "choices")))
    by (vm_compute; reflexivity).
  split; [reflexivity|]. split; [reflexivity|]. split; [exact H|].
  intros (results & st' & Hok). rewrite Hok in H. cbn [fst] in H.
  congruence.
Qed.

(** C3, as the code has it: when the endpoint answers a worklist path with
    a success status and a decoded body that has no string at
    [choices[0].message.content], the subscripts or [process_response]
    raise an exception that is not a [RequestException]; the handler does
    not apply and [inference] raises it.  The request has been posted, no
    list is returned and the paths after it are not touched. *)
Theorem unusable_body_aborts_batch (E : Env) (self : QwenAPIInference)
        (input_data : list Item) (mode : option str) (st st1 : State E)
        (pre post : list str) (p : str) (rs : list json)
        (size : Z * Z) (raw : list byte) (text : str)
        (response : Response) (remote' : Remote E) (body : json) (e : exn) :
  is_static mode = false ->
  _extract_file_paths E input_data = pre ++ p :: post ->
  processes E self input_data st pre rs st1 ->
  load_size E p DEFAULT_MAX_WIDTH DEFAULT_MAX_HEIGHT = Ok size ->
  file_read E p = Ok raw ->
  first_text_input input_data = Ok text ->
  requests_post E (remote st1) (build_request self text (data_url raw))
  = (Ok response, remote') ->
  raise_for_status response = Ok tt ->
  response_json response = Ok body ->
  content_unusable body e ->
  as_RequestException e = None
  /\ inference E self input_data mode st
     = (Raise e,
        after_post p (build_request self text (data_url raw)) remote' st1).
Proof.
  intros Hmode Hlist Hpre Hload Hread Htext Hpost Hstatus Hjson Hbody.
  pose proof (content_unusable_exn body e Hbody) as Hexn.
  split; [exact Hexn|].
  rewrite inference_not_static by exact Hmode. rewrite Hlist.
  apply (inference_loop_raise E self input_data st st1 _ pre post p rs [] e
           Hpre).
  rewrite process_item_eq, Hload, Hread, Htext. unfold try_request.
  change (remote (after_files p st1)) with (remote st1). rewrite Hpost.
  rewrite (try_body_unusable response body e Hstatus Hjson Hbody), Hexn.
  reflexivity.
Qed.

Lemma unusable_body_aborts_batch_witness :
  let input := [Demo.item ["/data/small.png"; "/data/wide.png";
                           "/data/small.png"]%string "extract"] in
  let answers := [Demo.reply (JStr (u "[1, 2]")); Demo.reply JNull;
                  Demo.reply (JStr (u "{}"))] in
  let st := Demo.start answers in
  let st1 := after_post Demo.SMALL
               (build_request Demo.client (u "extract")
                              (data_url Demo.small_raw))
               (tl answers : Remote Demo.env) st in
  let body := JObj [ (u "choices",
                      JArr [ JObj [ (u "message",
                                    JObj [ (u "content", JNull) ]) ] ]) ] in
  content_unusable body TypeError
  /\ inference Demo.env Demo.client input None st
     = (Raise TypeError,
        after_post Demo.WIDE
          (build_request Demo.client (u "extract") (data_url Demo.wide_raw))
          ([Demo.reply (JStr (u "{}"))] : Remote Demo.env) st1).
Proof.
  intros input answers st st1 body.
  assert (Hbody : content_unusable body TypeError).
  { right. exists JNull. split; [reflexivity|].
    split; [discriminate|reflexivity]. }
  assert (Hpre : processes Demo.env Demo.client input st [Demo.SMALL]
                           [JStr (u "[1, 2]")] st1).
  { eapply processes_cons; [vm_compute; reflexivity|apply processes_nil]. }
  assert (Hload : load_size Demo.env Demo.WIDE DEFAULT_MAX_WIDTH
                            DEFAULT_MAX_HEIGHT = Ok (1250, 62))
    by (vm_compute; reflexivity).
  assert (Hlist : _extract_file_paths Demo.env input
                  = [Demo.SMALL] ++ Demo.WIDE :: [Demo.SMALL])
    by (vm_compute; reflexivity).
  assert (Hpost : requests_post Demo.env (remote st1)
                    (build_request Demo.client (u "extract")
                                   (data_url Demo.wide_raw))
                  = (Ok (Demo.answer 200 (u "OK") (Ok body)),
                     ([Demo.reply (JStr (u "{}"))] : Remote Demo.env)))
    by (vm_compute; reflexivity).
  split; [exact Hbody|].
  exact (proj2 (unusable_body_aborts_batch
                  Demo.env Demo.client input None st st1 [Demo.SMALL]
                  [Demo.SMALL] Demo.WIDE [JStr (u "[1, 2]")] (1250, 62)
                  Demo.wide_raw (u "extract")
                  (Demo.answer 200 (u "OK") (Ok body))
                  ([Demo.reply (JStr (u "{}"))] : Remote Demo.env)
                  body TypeError
                  eq_refl Hlist Hpre Hload eq_refl eq_refl Hpost
                  eq_refl eq_refl Hbody)).
Defined.

(* ================================================================= *)
(** ** Binary64 rounding *)

Local Open Scope Q_scope.

Lemma pow2_pos (k : Z) : 0 < Float64.pow2 k.
Proof. unfold Float64.pow2. apply Qpower_0_lt. reflexivity. Qed.

Lemma pow2_add (a b : Z) :
  Float64.pow2 (a + b) == Float64.pow2 a * Float64.pow2 b.
Proof. unfold Float64.pow2. apply Qpower_plus. discriminate. Qed.

Lemma pow2_nonneg (k : Z) : (0 <= k)%Z -> Float64.pow2 k == inject_Z (2 ^ k).
Proof.
  intros H. unfold Float64.pow2. rewrite (Zpower_Qpower 2 k H). reflexivity.
Qed.

Lemma pow2_opp (k : Z) : Float64.pow2 (- k) == / Float64.pow2 k.
Proof. unfold Float64.pow2. apply Qpower_opp. Qed.

Lemma ilog2_le (q : Q) : 0 < q -> Float64.pow2 (Float64.ilog2 q) <= q.
Proof.
  intros Hq. unfold Float64.ilog2.
  set (k := (Z.log2 (Qnum q) - Z.log2 (Z.pos (Qden q)))%Z).
  destruct (Qle_bool (Float64.pow2 k) q) eqn:Hb.
  - apply Qle_bool_iff. exact Hb.
  - clear Hb. destruct q as [n d]. cbn [Qnum Qden] in k.
    assert (Hn : (0 < n)%Z).
    { unfold Qlt in Hq. cbn in Hq. lia. }
    pose proof (Z.log2_spec n Hn) as [Hn1 _].
    pose proof (Z.log2_spec (Z.pos d) (Pos2Z.is_pos d)) as [_ Hd2].
    pose proof (Z.log2_nonneg n) as Hln.
    pose proof (Z.log2_nonneg (Z.pos d)) as Hld.
    replace (k - 1)%Z with (Z.log2 n + - (Z.log2 (Z.pos d) + 1))%Z
      by (unfold k; lia).
    rewrite pow2_add, pow2_opp, !pow2_nonneg by lia.
    set (A := (2 ^ Z.log2 n)%Z) in *.
    set (B := (2 ^ (Z.log2 (Z.pos d) + 1))%Z).
    assert (HB : (Z.pos d < B)%Z).
    { unfold B. rewrite <- Z.add_1_r in Hd2. exact Hd2. }
    assert (HA : (0 < A)%Z) by (unfold A; apply Z.pow_pos_nonneg; lia).
    apply Qle_shift_div_r.
    + change 0 with (inject_Z 0). rewrite <- Zlt_Qlt. lia.
    + unfold Qle, Qmult, inject_Z. cbn [Qnum Qden].
      rewrite Pos.mul_1_r. nia.
Qed.

Lemma round_half_even_near (t : Q) :
  - (1 # 2) <= inject_Z (Float64.round_half_even t) - t <= 1 # 2.
Proof.
  unfold Float64.round_half_even.
  pose proof (Qfloor_le t) as Hlo. pose proof (Qlt_floor t) as Hhi.
  rewrite inject_Z_plus in Hhi. change (inject_Z 1) with 1 in Hhi.
  set (m := Qfloor t) in *.
  destruct (Qcompare (t - inject_Z m) (1 # 2)) eqn:Hc.
  - apply Qeq_alt in Hc.
    destruct (Z.even m); rewrite ?inject_Z_plus; change (inject_Z 1) with 1;
      lra.
  - apply Qlt_alt in Hc. lra.
  - apply Qgt_alt in Hc. rewrite inject_Z_plus. change (inject_Z 1) with 1.
    lra.
Qed.

Lemma pow2_m52 : Float64.pow2 (-52) == 1 # 4503599627370496.
Proof. reflexivity. Qed.

Lemma round_pos_error (q : Q) :
  0 < q ->
  q - q * unit_roundoff <= Float64.round_pos q <= q + q * unit_roundoff.
Proof.
  intros Hq. unfold Float64.round_pos. rewrite Qred_correct.
  set (e := (Float64.ilog2 q - 52)%Z).
  pose proof (pow2_pos e) as Hp.
  pose proof (round_half_even_near (q / Float64.pow2 e)) as Hm.
  set (m := inject_Z (Float64.round_half_even (q / Float64.pow2 e))) in *.
  assert (Ht : q / Float64.pow2 e * Float64.pow2 e == q).
  { field. lra. }
  assert (He : Float64.pow2 e <= q * (1 # 4503599627370496)).
  { unfold e. replace (Float64.ilog2 q - 52)%Z
      with (Float64.ilog2 q + -52)%Z by lia.
    rewrite pow2_add, pow2_m52. pose proof (ilog2_le q Hq). nra. }
  set (p := Float64.pow2 e) in *. set (t := q / p) in *.
  unfold unit_roundoff.
  assert (H1 : (m - t) * p <= (1 # 2) * p) by nra.
  assert (H2 : - (1 # 2) * p <= (m - t) * p) by nra.
  split; nra.
Qed.

Lemma round_error (q : Q) :
  0 < q ->
  q - q * unit_roundoff <= Float64.round q <= q + q * unit_roundoff.
Proof.
  intros Hq. unfold Float64.round.
  destruct (Qcompare q 0) eqn:Hc.
  - apply Qeq_alt in Hc. lra.
  - apply Qlt_alt in Hc. lra.
  - apply round_pos_error. exact Hq.
Qed.

Lemma round_positive (q : Q) : 0 < q -> 0 < Float64.round q.
Proof.
  intros Hq. pose proof (round_error q Hq). unfold unit_roundoff in *. nra.
Qed.

Lemma of_int_1750 : Float64.of_int 1750 = inject_Z 1750.
Proof. vm_compute. reflexivity. Qed.

Lemma of_int_1250 : Float64.of_int 1250 = inject_Z 1250.
Proof. vm_compute. reflexivity. Qed.

Lemma inject_Z_pos (z : Z) : (0 < z)%Z -> 0 < inject_Z z.
Proof. intros H. change 0 with (inject_Z 0). rewrite <- Zlt_Qlt. exact H. Qed.

Lemma aspect_bounds (w h : Z) :
  (0 < w)%Z -> (0 < h)%Z ->
  0 < aspect w h
  /\ inject_Z w - inject_Z w * unit_roundoff <= aspect w h * inject_Z h
  /\ aspect w h * inject_Z h <= inject_Z w + inject_Z w * unit_roundoff.
Proof.
  intros Hw Hh. apply inject_Z_pos in Hw, Hh.
  set (qw := inject_Z w) in *. set (qh := inject_Z h) in *.
  assert (Hq : 0 < qw / qh) by (apply Qlt_shift_div_l; lra).
  assert (Hmul : qw / qh * qh == qw) by (field; lra).
  pose proof (round_error _ Hq) as [Hlo Hhi].
  pose proof (round_positive _ Hq) as Hpos.
  unfold aspect. fold qw qh. set (a := Float64.round (qw / qh)) in *.
  set (x := qw / qh) in *. unfold unit_roundoff in *.
  split; [exact Hpos|]. split; nra.
Qed.

Lemma scaled_width_bounds (w h : Z) :
  (0 < w)%Z -> (0 < h)%Z ->
  0 < scaled_width w h
  /\ 1750 * aspect w h - 1750 * aspect w h * unit_roundoff <= scaled_width w h
  /\ scaled_width w h <= 1750 * aspect w h + 1750 * aspect w h * unit_roundoff.
Proof.
  intros Hw Hh. destruct (aspect_bounds w h Hw Hh) as (Ha & _ & _).
  assert (Hq : 0 < inject_Z 1750 * aspect w h).
  { change (inject_Z 1750) with 1750. lra. }
  pose proof (round_error _ Hq) as [Hlo Hhi].
  pose proof (round_positive _ Hq) as Hpos.
  unfold scaled_width. change (inject_Z 1750) with 1750 in *.
  split; [exact Hpos|]. split; lra.
Qed.

Lemma scaled_height_bounds (w h : Z) :
  (0 < w)%Z -> (0 < h)%Z ->
  0 < scaled_height w h
  /\ 1250 - 1250 * unit_roundoff <= scaled_height w h * aspect w h
  /\ scaled_height w h * aspect w h <= 1250 + 1250 * unit_roundoff.
Proof.
  intros Hw Hh. destruct (aspect_bounds w h Hw Hh) as (Ha & _ & _).
  set (a := aspect w h) in *.
  assert (Hq : 0 < inject_Z 1250 / a).
  { apply Qlt_shift_div_l; [exact Ha|]. change (inject_Z 1250) with 1250. lra. }
  assert (Hmul : inject_Z 1250 / a * a == 1250).
  { change (inject_Z 1250) with 1250. field. lra. }
  pose proof (round_error _ Hq) as [Hlo Hhi].
  pose proof (round_positive _ Hq) as Hpos.
  unfold scaled_height. fold a. set (y := Float64.round (inject_Z 1250 / a)) in *.
  set (x := inject_Z 1250 / a) in *. unfold unit_roundoff in *.
  split; [exact Hpos|]. split; nra.
Qed.

Lemma to_int_floor (x : Q) : 0 < x -> Float64.to_int x = Qfloor x.
Proof.
  intros H. unfold Float64.to_int.
  destruct (Qle_bool 0 x) eqn:E; [reflexivity|].
  assert (0 <= x) by lra. apply Qle_bool_iff in H0. congruence.
Qed.

Lemma new_size_defaults (w h : Z) :
  (0 < w)%Z -> (0 < h)%Z ->
  Float64.truediv w h = Ok (aspect w h)
  /\ Float64.int_mul 1750 (aspect w h) = scaled_width w h
  /\ Float64.int_div 1250 (aspect w h) = Ok (scaled_height w h)
  /\ new_size w h 1250 1750
     = Ok (Z.min 1250 (Qfloor (scaled_width w h)),
           Z.min 1750 (Qfloor (scaled_height w h))).
Proof.
  intros Hw Hh.
  destruct (aspect_bounds w h Hw Hh) as (Ha & _ & _).
  destruct (scaled_width_bounds w h Hw Hh) as (H1 & _ & _).
  destruct (scaled_height_bounds w h Hw Hh) as (H2 & _ & _).
  assert (Et : Float64.truediv w h = Ok (aspect w h)).
  { unfold Float64.truediv. destruct (h =? 0)%Z eqn:E; [lia|reflexivity]. }
  assert (Em : Float64.int_mul 1750 (aspect w h) = scaled_width w h).
  { unfold Float64.int_mul. rewrite of_int_1750. reflexivity. }
  assert (Ed : Float64.int_div 1250 (aspect w h) = Ok (scaled_height w h)).
  { unfold Float64.int_div. rewrite of_int_1250.
    destruct (Qeq_bool (aspect w h) 0) eqn:E; [|reflexivity].
    apply Qeq_bool_iff in E. lra. }
  split; [exact Et|]. split; [exact Em|]. split; [exact Ed|].
  unfold new_size, rbind. rewrite Et, Em, Ed.
  rewrite !to_int_floor by assumption. reflexivity.
Qed.

Lemma floor_scaled_width (w h : Z) :
  (0 < w < 2 ^ 31)%Z -> (0 < h)%Z ->
  let N := Qfloor (scaled_width w h) in
  (0 <= N /\ N * h <= 1750 * w <= (N + 1) * h)%Z.
Proof.
  intros [Hw Hw31] Hh N.
  destruct (aspect_bounds w h Hw Hh) as (Ha & Ha1 & Ha2).
  destruct (scaled_width_bounds w h Hw Hh) as (Hx & Hx1 & Hx2).
  pose proof (Qfloor_le (scaled_width w h)) as Hfl.
  pose proof (Qlt_floor (scaled_width w h)) as Hfu.
  fold N in Hfl, Hfu. rewrite inject_Z_plus in Hfu.
  change (inject_Z 1) with 1 in Hfu.
  assert (Hqw : 0 < inject_Z w) by (apply inject_Z_pos; exact Hw).
  assert (Hqh : 0 < inject_Z h) by (apply inject_Z_pos; exact Hh).
  assert (Hqw31 : inject_Z w < 2147483648).
  { change 2147483648 with (inject_Z (2 ^ 31)). rewrite <- Zlt_Qlt. exact Hw31. }
  set (qw := inject_Z w) in *. set (qh := inject_Z h) in *.
  set (a := aspect w h) in *. set (x := scaled_width w h) in *.
  set (n := inject_Z N) in *. unfold unit_roundoff in *.
  assert (Hup : x * qh <= 1750 * qw + (1 # 2)).
  { assert (x * qh <= (1750 * a + 1750 * a * (1 # 9007199254740992)) * qh)
      by nra.
    nra. }
  assert (Hlo : 1750 * qw - (1 # 2) <= x * qh).
  { assert ((1750 * a - 1750 * a * (1 # 9007199254740992)) * qh <= x * qh)
      by nra.
    nra. }
  assert (H1 : inject_Z (N * h) < inject_Z (1750 * w + 1)).
  { rewrite inject_Z_plus, !inject_Z_mult. fold qw qh n.
    change (inject_Z 1750) with 1750. change (inject_Z 1) with 1. nra. }
  assert (H2 : inject_Z (1750 * w) < inject_Z ((N + 1) * h + 1)).
  { rewrite inject_Z_plus, !inject_Z_mult, inject_Z_plus.
    fold qw qh n. change (inject_Z 1750) with 1750.
    change (inject_Z 1) with 1. nra. }
  assert (H3 : inject_Z (-1) < inject_Z N).
  { fold n. change (inject_Z (-1)) with (-1). lra. }
  rewrite <- Zlt_Qlt in H1, H2, H3. lia.
Qed.

Lemma floor_scaled_height (w h : Z) :
  (0 < w)%Z -> (0 < h < 2 ^ 31)%Z ->
  let M := Qfloor (scaled_height w h) in
  (0 <= M /\ M * w <= 1250 * h <= (M + 1) * w)%Z.
Proof.
  intros Hw [Hh Hh31] M.
  destruct (aspect_bounds w h Hw Hh) as (Ha & Ha1 & Ha2).
  destruct (scaled_height_bounds w h Hw Hh) as (Hy & Hy1 & Hy2).
  pose proof (Qfloor_le (scaled_height w h)) as Hfl.
  pose proof (Qlt_floor (scaled_height w h)) as Hfu.
  fold M in Hfl, Hfu. rewrite inject_Z_plus in Hfu.
  change (inject_Z 1) with 1 in Hfu.
  assert (Hqw : 0 < inject_Z w) by (apply inject_Z_pos; exact Hw).
  assert (Hqh : 0 < inject_Z h) by (apply inject_Z_pos; exact Hh).
  assert (Hqh31 : inject_Z h < 2147483648).
  { change 2147483648 with (inject_Z (2 ^ 31)). rewrite <- Zlt_Qlt. exact Hh31. }
  set (qw := inject_Z w) in *. set (qh := inject_Z h) in *.
  set (a := aspect w h) in *. set (y := scaled_height w h) in *.
  set (m := inject_Z M) in *. unfold unit_roundoff in *.
  (* y * a * qh is within (1 +- u) of 1250 * qh, and a * qh within
     (1 +- u) of qw *)
  assert (Hyah1 : (1250 - 1250 * (1 # 9007199254740992)) * qh <= y * (a * qh))
    by nra.
  assert (Hyah2 : y * (a * qh) <= (1250 + 1250 * (1 # 9007199254740992)) * qh)
    by nra.
  assert (Hyq1 : y * (a * qh) <= y * (qw + qw * (1 # 9007199254740992)))
    by nra.
  assert (Hyq2 : y * (qw - qw * (1 # 9007199254740992)) <= y * (a * qh))
    by nra.
  assert (Hup : y * qw <= 1250 * qh + (1 # 2)).
  { assert (E : y * (qw - qw * (1 # 9007199254740992))
                == (1 - (1 # 9007199254740992)) * (y * qw)) by ring.
    rewrite E in Hyq2. clear Hyq1 E.
    generalize dependent (y * (a * qh)). generalize dependent (y * qw).
    intros; lra. }
  assert (Hlo : 1250 * qh - (1 # 2) <= y * qw).
  { assert (E : y * (qw + qw * (1 # 9007199254740992))
                == (1 + (1 # 9007199254740992)) * (y * qw)) by ring.
    rewrite E in Hyq1. clear Hyq2 E.
    generalize dependent (y * (a * qh)). generalize dependent (y * qw).
    intros; lra. }
  assert (H1 : inject_Z (M * w) < inject_Z (1250 * h + 1)).
  { rewrite inject_Z_plus, !inject_Z_mult. fold qw qh m.
    change (inject_Z 1250) with 1250. change (inject_Z 1) with 1. nra. }
  assert (H2 : inject_Z (1250 * h) < inject_Z ((M + 1) * w + 1)).
  { rewrite inject_Z_plus, !inject_Z_mult, inject_Z_plus.
    fold qw qh m. change (inject_Z 1250) with 1250.
    change (inject_Z 1) with 1. nra. }
  assert (H3 : inject_Z (-1) < inject_Z M).
  { fold m. change (inject_Z (-1)) with (-1). lra. }
  rewrite <- Zlt_Qlt in H1, H2, H3. lia.
Qed.

Lemma fit_scale_min (w h : Z) :
  (0 < w)%Z -> (0 < h)%Z ->
  fit_scale w h <= 1250 / inject_Z w /\ fit_scale w h <= 1750 / inject_Z h.
Proof.
  intros Hw Hh. unfold fit_scale.
  pose proof (inject_Z_pos w Hw) as Hqw. pose proof (inject_Z_pos h Hh) as Hqh.
  assert (Hcross : forall a b : Q, a * inject_Z w <= b * inject_Z h ->
                     a / inject_Z h <= b / inject_Z w).
  { intros a b H. apply Qle_shift_div_l; [exact Hqw|].
    assert (E : a / inject_Z h * inject_Z w == a * inject_Z w / inject_Z h)
      by (field; lra).
    rewrite E. apply Qle_shift_div_r; [exact Hqh|exact H]. }
  destruct (1750 * w <=? 1250 * h)%Z eqn:E.
  - apply Z.leb_le in E. split; [|lra].
    apply Hcross. rewrite Zle_Qle, !inject_Z_mult in E. exact E.
  - apply Z.leb_gt in E. split; [lra|].
    apply Z.lt_le_incl in E. rewrite Zle_Qle, !inject_Z_mult in E.
    assert (Hc : forall a b : Q, a * inject_Z h <= b * inject_Z w ->
                     a / inject_Z w <= b / inject_Z h).
    { intros a b H. apply Qle_shift_div_l; [exact Hqh|].
      assert (E' : a / inject_Z w * inject_Z h == a * inject_Z h / inject_Z w)
        by (field; lra).
      rewrite E'. apply Qle_shift_div_r; [exact Hqw|exact H]. }
    apply Hc. exact E.
Qed.

(** The integer content of the resize arithmetic. *)
Lemma new_size_brackets (w h : Z) :
  (0 < w < 2 ^ 31)%Z -> (0 < h < 2 ^ 31)%Z ->
  exists N M : Z,
    new_size w h 1250 1750 = Ok (Z.min 1250 N, Z.min 1750 M)
    /\ N = Float64.to_int (Float64.int_mul 1750 (aspect w h))
    /\ (0 <= N /\ N * h <= 1750 * w <= (N + 1) * h)%Z
    /\ (0 <= M /\ M * w <= 1250 * h <= (M + 1) * w)%Z.
Proof.
  intros Hw Hh.
  destruct (new_size_defaults w h ltac:(lia) ltac:(lia)) as (_ & Em & _ & Es).
  destruct (scaled_width_bounds w h ltac:(lia) ltac:(lia)) as (Hx & _).
  exists (Qfloor (scaled_width w h)), (Qfloor (scaled_height w h)).
  split; [exact Es|]. split.
  - rewrite Em. symmetry. apply to_int_floor. exact Hx.
  - split.
    + apply floor_scaled_width; lia.
    + apply floor_scaled_height; lia.
Qed.

Lemma within_one_pixel (n c d : Z) :
  (0 < d)%Z -> (n * d <= c <= (n + 1) * d)%Z ->
  Qabs (inject_Z n - inject_Z c / inject_Z d) <= 1.
Proof.
  intros Hd [H1 H2]. apply Qabs_Qle_condition.
  pose proof (inject_Z_pos d Hd) as Hqd.
  rewrite Zle_Qle, inject_Z_mult in H1.
  rewrite Zle_Qle, inject_Z_mult, inject_Z_plus in H2.
  change (inject_Z 1) with 1 in H2.
  set (x := inject_Z c / inject_Z d).
  assert (E : x * inject_Z d == inject_Z c) by (unfold x; field; lra).
  rewrite <- E in H1, H2. split; nra.
Qed.

Lemma Qabs_inject_diff (a b : Z) :
  (Z.abs (a - b) <= 1)%Z -> Qabs (inject_Z a - inject_Z b) <= 1.
Proof.
  intros H. apply Z.abs_le in H. destruct H as [H1 H2].
  apply Qabs_Qle_condition.
  assert (E1 : (b <= a + 1)%Z) by lia. assert (E2 : (a <= b + 1)%Z) by lia.
  rewrite Zle_Qle, inject_Z_plus in E1, E2. change (inject_Z 1) with 1 in *.
  split; lra.
Qed.

Lemma ratio_from_cross (nw nh w h : Z) :
  (0 < w)%Z -> (0 < h)%Z -> (0 < nh)%Z ->
  (Z.abs (nw * h - nh * w) <= w + h)%Z ->
  Qabs (inject_Z nw / inject_Z nh - inject_Z w / inject_Z h)
  <= (1 + inject_Z w / inject_Z h) / inject_Z nh.
Proof.
  intros Hw Hh Hnh H. apply Z.abs_le in H. destruct H as [H1 H2].
  assert (E1 : (nh * w <= nw * h + (w + h))%Z) by lia.
  assert (E2 : (nw * h <= nh * w + (w + h))%Z) by lia.
  rewrite Zle_Qle, !inject_Z_plus, !inject_Z_mult in E1, E2.
  apply inject_Z_pos in Hw, Hh, Hnh.
  set (qa := inject_Z nw) in *. set (qb := inject_Z nh) in *.
  set (qw := inject_Z w) in *. set (qh := inject_Z h) in *.
  assert (Hr : qw / qh * qh == qw) by (field; lra).
  assert (Hrpos : 0 < qw / qh) by (apply Qlt_shift_div_l; lra).
  set (r := qw / qh) in *.
  assert (Ha : qa / qb * qb == qa) by (field; lra).
  set (x := qa / qb) in *.
  assert (Hb : (1 + r) / qb * qb == 1 + r) by (field; lra).
  set (t := (1 + r) / qb) in *.
  apply Qabs_Qle_condition.
  rewrite <- Hr in E1, E2. rewrite <- Ha in E1, E2.
  (* divide by qh * qb *)
  assert (G1 : (r - x) * (qb * qh) <= t * (qb * qh)).
  { assert (E : t * (qb * qh) == (1 + r) * qh).
    { rewrite <- Hb. ring. }
    rewrite E. nra. }
  assert (G2 : (x - r) * (qb * qh) <= t * (qb * qh)).
  { assert (E : t * (qb * qh) == (1 + r) * qh).
    { rewrite <- Hb. ring. }
    rewrite E. nra. }
  assert (Hp : 0 < qb * qh) by nra.
  split; nra.
Qed.

Local Close Scope Q_scope.

(** On these sizes the three floats of the model are the ones the
    library's IEEE-754 operations produce. *)
Lemma model_agrees_with_ieee_on_samples :
  forallb agrees_with_ieee sample_sizes = true.
Proof. vm_compute. reflexivity. Qed.

(* ================================================================= *)
(** ** [load_image_data] *)

Lemma load_size_defaults (E : Env) (p : str) (w h : Z) :
  Image_open E p = Ok (w, h) ->
  0 < w -> 0 < h ->
  load_size E p DEFAULT_MAX_WIDTH DEFAULT_MAX_HEIGHT
  = if (w >? 1250) || (h >? 1750)
    then match new_size w h 1250 1750 with
         | Ok target => match Image_resize E p target with
                        | Some e => Raise e
                        | None => Ok target
                        end
         | Raise e => Raise e
         end
    else Ok (w, h).
Proof.
  intros Hopen Hw Hh. unfold load_size, rbind. rewrite Hopen.
  unfold DEFAULT_MAX_WIDTH, DEFAULT_MAX_HEIGHT.
  destruct ((w >? 1250) || (h >? 1750)); [|reflexivity].
  destruct (new_size w h 1250 1750); reflexivity.
Qed.



(** C7: when an image exceeds a bound, each side of the new size is
    within one pixel of the side of the exactly proportional size, the
    input scaled by the smaller of [1250 / w] and [1750 / h]; hence the
    cross product of the two sizes is at most [w + h], and the aspect
    ratios differ by at most [(1 + w / h) / new_height]. *)
Theorem resize_keeps_aspect_ratio (E : Env) (p : str) (w h : Z) :
  Image_open E p = Ok (w, h) ->
  0 < w < 2 ^ 31 -> 0 < h < 2 ^ 31 ->
  1250 < w \/ 1750 < h ->
  exists new_width new_height : Z,
    new_size w h DEFAULT_MAX_WIDTH DEFAULT_MAX_HEIGHT
    = Ok (new_width, new_height)
    /\ load_size E p DEFAULT_MAX_WIDTH DEFAULT_MAX_HEIGHT
       = match Image_resize E p (new_width, new_height) with
         | Some e => Raise e
         | None => Ok (new_width, new_height)
         end
    /\ (Qabs (inject_Z new_width - fit_scale w h * inject_Z w) <= 1)%Q
    /\ (Qabs (inject_Z new_height - fit_scale w h * inject_Z h) <= 1)%Q
    /\ Z.abs (new_width * h - new_height * w) <= w + h
    /\ (0 < new_height ->
        (Qabs (inject_Z new_width / inject_Z new_height
               - inject_Z w / inject_Z h)
         <= (1 + inject_Z w / inject_Z h) / inject_Z new_height)%Q).
Proof.
  intros Hopen Hw Hh Hbig.
  destruct (new_size_brackets w h Hw Hh)
    as (N & M & Es & _ & (HN0 & HN1 & HN2) & (HM0 & HM1 & HM2)).
  exists (Z.min 1250 N), (Z.min 1750 M).
  unfold DEFAULT_MAX_WIDTH, DEFAULT_MAX_HEIGHT.
  split; [exact Es|]. split.
  { pose proof (load_size_defaults E p w h Hopen ltac:(lia) ltac:(lia)) as Hl.
    unfold DEFAULT_MAX_WIDTH, DEFAULT_MAX_HEIGHT in Hl. rewrite Hl, Es.
    destruct ((w >? 1250) || (h >? 1750)) eqn:Eb; [reflexivity|].
    apply orb_false_iff in Eb. lia. }
  pose proof (inject_Z_pos w ltac:(lia)) as Hqw.
  pose proof (inject_Z_pos h ltac:(lia)) as Hqh.
  assert (Hcross : Z.abs (Z.min 1250 N * h - Z.min 1750 M * w) <= w + h
                   /\ (Qabs (inject_Z (Z.min 1250 N)
                             - fit_scale w h * inject_Z w) <= 1)%Q
                   /\ (Qabs (inject_Z (Z.min 1750 M)
                             - fit_scale w h * inject_Z h) <= 1)%Q).
  { unfold fit_scale. destruct (1750 * w <=? 1250 * h) eqn:Ecase.
    - apply Z.leb_le in Ecase.
      assert (HN : N <= 1250) by nia.
      assert (HM : 1749 <= M) by nia.
      rewrite (Z.min_r 1250 N) by lia.
      split; [|split].
      + apply Z.abs_le. destruct (Z_le_gt_dec 1750 M).
        * rewrite Z.min_l by lia. nia.
        * rewrite Z.min_r by lia. nia.
      + assert (Eq : (1750 / inject_Z h * inject_Z w
                     == inject_Z (1750 * w) / inject_Z h)%Q).
        { rewrite inject_Z_mult. change (inject_Z 1750) with 1750%Q.
          field. lra. }
        rewrite Eq. apply within_one_pixel; lia.
      + assert (Eq : (1750 / inject_Z h * inject_Z h == inject_Z 1750)%Q).
        { change (inject_Z 1750) with 1750%Q. field. lra. }
        rewrite Eq. apply Qabs_inject_diff. lia.
    - apply Z.leb_gt in Ecase.
      assert (HN : 1250 <= N) by nia.
      assert (HM : M < 1750) by nia.
      rewrite (Z.min_l 1250 N) by lia. rewrite (Z.min_r 1750 M) by lia.
      split; [|split].
      + apply Z.abs_le. nia.
      + assert (Eq : (1250 / inject_Z w * inject_Z w == inject_Z 1250)%Q).
        { change (inject_Z 1250) with 1250%Q. field. lra. }
        rewrite Eq. apply Qabs_inject_diff. lia.
      + assert (Eq : (1250 / inject_Z w * inject_Z h
                     == inject_Z (1250 * h) / inject_Z w)%Q).
        { rewrite inject_Z_mult. change (inject_Z 1250) with 1250%Q.
          field. lra. }
        rewrite Eq. apply within_one_pixel; lia. }
  destruct Hcross as (Hc & Hpw & Hph).
  split; [exact Hpw|]. split; [exact Hph|]. split; [exact Hc|].
  intros Hpos. apply ratio_from_cross; lia.
Qed.

Lemma resize_keeps_aspect_ratio_witness :
  Image_open Demo.env Demo.WIDE = Ok (2000, 100)
  /\ new_size 2000 100 DEFAULT_MAX_WIDTH DEFAULT_MAX_HEIGHT = Ok (1250, 62)
  /\ Z.abs (1250 * 100 - 62 * 2000) <= 2000 + 100.
Proof.
  split; [reflexivity|].
  destruct (resize_keeps_aspect_ratio Demo.env Demo.WIDE 2000 100 eq_refl
              ltac:(lia) ltac:(lia) ltac:(lia))
    as (nw & nh & Hsize & _ & _ & _ & Hcross & _).
  assert (E : new_size 2000 100 DEFAULT_MAX_WIDTH DEFAULT_MAX_HEIGHT
              = Ok (1250, 62)) by (vm_compute; reflexivity).
  split; [exact E|]. rewrite E in Hsize. injection Hsize as <- <-.
  exact Hcross.
Defined.

(** Binary64 rounding shows: the exact quotient [1750 * 234 / 1820] is
    [225], the floats give [224]. *)
Lemma rounded_floor_can_be_one_less :
  new_size 234 1820 DEFAULT_MAX_WIDTH DEFAULT_MAX_HEIGHT = Ok (224, 1750)
  /\ Z.min 1250 (1750 * 234 / 1820) = 225.
Proof. vm_compute. split; reflexivity. Qed.

(* ================================================================= *)
(** ** The decoder's recursion budget *)

Import Json.

Section Budget.

Local Open Scope nat_scope.

(** [lia] after the two names of the character type are identified. *)
Ltac llia := unfold str, char in *; lia.

Lemma lstrip_by_length (p : char -> bool) (s : str) :
List.length (PyStr.lstrip_by p s) <= List.length s.
Proof.
induction s as [|c t IH]; cbn; [llia|]. destruct (p c); cbn; llia.
Qed.

Lemma skip_ws_length (s : str) : List.length (skip_ws s) <= List.length s.
Proof. apply lstrip_by_length. Qed.

Lemma span_digits_length (s : str) :
List.length (snd (span_digits s)) <= List.length s.
Proof.
induction s as [|c t IH]; cbn; [llia|].
destruct (is_digit c); cbn; [|llia].
destruct (span_digits t) as [ds r]. cbn in *. llia.
Qed.

Lemma consumes_fail {A : Type} (s : str) : consumes s (@PFail A).
Proof. split; [discriminate|]. intros v rest H. discriminate. Qed.

Lemma consumes_ok {A : Type} (s rest : str) (v : A) :
List.length rest < List.length s -> consumes s (POk v rest).
Proof.
intros H. split; [discriminate|]. intros v' rest' E. inversion E; subst.
exact H.
Qed.

Lemma consumes_weaken {A : Type} (s s' : str) (r : pres A) :
List.length s' <= List.length s -> consumes s' r -> consumes s r.
Proof.
intros Hle [Hf Hs]. split; [exact Hf|]. intros v rest E.
specialize (Hs v rest E). llia.
Qed.

Lemma consumes_pmap {A B : Type} (f : A -> B) (s : str) (r : pres A) :
consumes s r -> consumes s (pmap f r).
Proof.
intros [Hf Hs]. destruct r as [a rest| |]; cbn.
- apply consumes_ok. eapply Hs. reflexivity.
- apply consumes_fail.
- congruence.
Qed.

Lemma scanstring_consumes :
forall n s acc, List.length s <= n -> consumes (0%N :: s) (scanstring s acc).
Proof.
induction n as [|n IH]; intros s acc Hn.
- destruct s; [|cbn in Hn; llia]. cbn. apply consumes_fail.
- destruct s as [|c t]; [apply consumes_fail|]. cbn [scanstring].
  cbn [List.length] in Hn.
  assert (Hrec : forall s' acc', List.length s' <= List.length t ->
                   consumes (0%N :: c :: t) (scanstring s' acc')).
  { intros s' acc' Hle. eapply consumes_weaken; [|apply IH; llia].
    cbn. llia. }
  destruct (c =? DQUOTE)%N; [apply consumes_ok; cbn; llia|].
  destruct (c =? BACKSLASH)%N.
  + destruct t as [|e t1]; [apply consumes_fail|].
    destruct (e =? 117)%N.
    * destruct t1 as [|h1 [|h2 [|h3 [|h4 t2]]]]; try apply consumes_fail.
      destruct (hex4 h1 h2 h3 h4) as [uni|]; [|apply consumes_fail].
      destruct (is_high_surrogate uni).
      -- destruct t2 as [|b [|v [|g1 [|g2 [|g3 [|g4 t3]]]]]];
           try (apply Hrec; cbn; llia).
         destruct ((b =? BACKSLASH) && (v =? 117))%N;
           [|apply Hrec; cbn; llia].
         destruct (hex4 g1 g2 g3 g4) as [uni2|]; [|apply consumes_fail].
         destruct (is_low_surrogate uni2); apply Hrec; cbn; llia.
      -- apply Hrec. cbn. llia.
    * destruct (unescape e); [|apply consumes_fail].
      apply Hrec. cbn. llia.
  + destruct (c <? 32)%N; [apply consumes_fail|]. apply Hrec. llia.
Qed.

Lemma scanstring_shorter (s acc : str) : consumes (0%N :: s) (scanstring s acc).
Proof. apply (scanstring_consumes (List.length s)). llia. Qed.

Lemma keyword_shorter (kw : string) (v : json) (s : str) (w : json) (r : str) :
u kw <> [] -> keyword kw v s = Some (w, r) ->
List.length r < List.length s.
Proof.
unfold keyword. intros Hne. destruct (PyStr.startswith (u kw) s) eqn:E;
  [|discriminate].
intros H. inversion H; subst. rewrite length_skipn.
apply startswith_length in E. unfold PyStr.len, PyStr.len' in E.
destruct (u kw); [congruence|]. cbn in *. llia.
Qed.

Lemma scan_frac_length (s : str) :
List.length (snd (scan_frac s)) <= List.length s.
Proof.
destruct s as [|c t]; cbn; [llia|]. destruct (c =? 46)%N; cbn; [|llia].
pose proof (span_digits_length t).
destruct (span_digits t) as [[|d ds] r]; cbn in *; llia.
Qed.

Lemma scan_exp_length (s : str) :
List.length (snd (scan_exp s)) <= List.length s.
Proof.
unfold scan_exp. destruct s as [|c t]; [cbn; llia|].
destruct ((c =? 101) || (c =? 69))%N; [|cbn; llia].
destruct t as [|sg t']; [cbn; llia|].
destruct ((sg =? 43) || (sg =? 45))%N.
- pose proof (span_digits_length t').
  destruct (span_digits t') as [[|d ds] r]; cbn [snd List.length] in *; llia.
- pose proof (span_digits_length (sg :: t')).
  destruct (span_digits (sg :: t')) as [[|d ds] r];
    cbn [snd List.length] in *; llia.
Qed.

Lemma scan_int_part_shorter (s ds r : str) :
scan_int_part s = Some (ds, r) -> List.length r < List.length s.
Proof.
destruct s as [|c t]; cbn; [discriminate|].
destruct (c =? 48)%N.
- intros H. inversion H; subst. llia.
- destruct (is_digit c); [|discriminate].
  pose proof (span_digits_length t).
  destruct (span_digits t) as [ds' r']. intros H'. inversion H'; subst.
  cbn in *. llia.
Qed.

Lemma scan_number_shorter (s : str) (v : json) (r : str) :
scan_number s = Some (v, r) -> List.length r < List.length s.
Proof.
unfold scan_number.
set (sp := match s with
           | [] => ([], s)
           | c :: t => if (c =? 45)%N then ([c], t) else ([], s)
           end).
assert (Hsp : List.length (snd sp) <= List.length s).
{ unfold sp. destruct s as [|c t]; cbn; [llia|].
  destruct (c =? 45)%N; cbn; llia. }
destruct sp as [sign s1]. cbn [snd] in Hsp.
destruct (scan_int_part s1) as [[int_part r1]|] eqn:Ei; [|discriminate].
apply scan_int_part_shorter in Ei.
pose proof (scan_frac_length r1) as Hf.
destruct (scan_frac r1) as [frac r2]. cbn [snd] in Hf.
pose proof (scan_exp_length r2) as He.
destruct (scan_exp r2) as [exp r3]. cbn [snd] in He.
destruct frac, exp; intros H; inversion H; subst; llia.
Qed.

Lemma scan_constant_consumes (s : str) : consumes s (scan_constant s).
Proof.
unfold scan_constant.
repeat match goal with
| |- context [keyword ?kw ?v s] =>
  let E := fresh "E" in
  destruct (keyword kw v s) as [[? ?]|] eqn:E;
    [apply consumes_ok; eapply (keyword_shorter kw); [discriminate|exact E]|]
| |- context [scan_number s] =>
  let E := fresh "E" in
  destruct (scan_number s) as [[? ?]|] eqn:E;
    [apply consumes_ok; eapply scan_number_shorter; exact E|]
end.
apply consumes_fail.
Qed.

(** With a budget of twice the text length and a little more, none of
  the three mutually recursive scanners runs out. *)
Lemma parse_budget :
forall fuel,
  (forall s, 2 * List.length s + 1 <= fuel -> consumes s (parse_value fuel s))
  /\ (forall s acc, 2 * List.length s + 2 <= fuel ->
        consumes (0%N :: s) (parse_elems fuel s acc))
  /\ (forall s acc, 2 * List.length s + 2 <= fuel ->
        consumes (0%N :: s) (parse_members fuel s acc)).
Proof.
induction fuel as [|fuel (IHv & IHe & IHm)].
- split; [|split]; intros; llia.
- split; [|split].
  + intros s Hf. cbn [parse_value].
    destruct s as [|c t]; [apply consumes_fail|]. cbn [List.length] in Hf.
    destruct (c =? DQUOTE)%N.
    { apply consumes_pmap.
      eapply consumes_weaken; [|apply scanstring_shorter]. cbn. llia. }
    destruct (c =? 123)%N.
    { pose proof (skip_ws_length t) as Hws.
      destruct (skip_ws t) as [|d t1]; [apply consumes_fail|].
      cbn [List.length] in Hws.
      destruct (d =? 125)%N; [apply consumes_ok; cbn; llia|].
      destruct (d =? DQUOTE)%N; [|apply consumes_fail].
      apply consumes_pmap.
      eapply consumes_weaken; [|apply IHm; llia]. cbn. llia. }
    destruct (c =? 91)%N.
    { pose proof (skip_ws_length t) as Hws.
      destruct (skip_ws t) as [|d t1]; [apply consumes_fail|].
      cbn [List.length] in Hws.
      destruct (d =? 93)%N; [apply consumes_ok; cbn; llia|].
      apply consumes_pmap.
      eapply consumes_weaken; [|apply IHe; cbn; llia]. cbn. llia. }
    apply scan_constant_consumes.
  + intros s acc Hf. cbn [parse_elems].
    destruct (IHv s ltac:(llia)) as [Hnf Hsh].
    destruct (parse_value fuel s) as [v r| |];
      [|apply consumes_fail|congruence].
    specialize (Hsh v r eq_refl).
    pose proof (skip_ws_length r) as Hws.
    destruct (skip_ws r) as [|d r1]; [apply consumes_fail|].
    cbn [List.length] in Hws.
    destruct (d =? 93)%N; [apply consumes_ok; cbn; llia|].
    destruct (d =? 44)%N; [|apply consumes_fail].
    pose proof (skip_ws_length r1) as Hws1.
    eapply consumes_weaken; [|apply IHe; llia]. cbn. llia.
  + intros s acc Hf. cbn [parse_members].
    destruct (scanstring_shorter s []) as [Hnf Hsh].
    destruct (scanstring s []) as [key r| |];
      [|apply consumes_fail|congruence].
    specialize (Hsh key r eq_refl). cbn [List.length] in Hsh.
    pose proof (skip_ws_length r) as Hws.
    destruct (skip_ws r) as [|d r1]; [apply consumes_fail|].
    cbn [List.length] in Hws.
    destruct (d =? 58)%N; [|apply consumes_fail].
    pose proof (skip_ws_length r1) as Hws1.
    destruct (IHv (skip_ws r1) ltac:(llia)) as [Hnf2 Hsh2].
    destruct (parse_value fuel (skip_ws r1)) as [v r2| |];
      [|apply consumes_fail|congruence].
    specialize (Hsh2 v r2 eq_refl).
    pose proof (skip_ws_length r2) as Hws2.
    destruct (skip_ws r2) as [|e r3]; [apply consumes_fail|].
    cbn [List.length] in Hws2.
    destruct (e =? 125)%N; [apply consumes_ok; cbn; llia|].
    destruct (e =? 44)%N; [|apply consumes_fail].
    pose proof (skip_ws_length r3) as Hws3.
    destruct (skip_ws r3) as [|q r4]; [apply consumes_fail|].
    cbn [List.length] in Hws3.
    destruct (q =? DQUOTE)%N; [|apply consumes_fail].
    eapply consumes_weaken; [|apply IHm; llia]. cbn. llia.
Qed.

(** [loads] answers [None] only for text the decoder rejects: the budget
  of [decode] is never exhausted. *)
Lemma decode_never_exhausts (s : str) : decode s <> PFuel.
Proof.
unfold decode. destruct s as [|c t]; [discriminate|].
destruct (c =? 65279)%N; [discriminate|].
apply (proj1 (parse_budget (budget (c :: t)))).
pose proof (skip_ws_length (c :: t)). unfold budget. llia.
Qed.

End Budget.

(* ================================================================= *)
(** * Further properties *)

(** ** Batches *)

Section Batch.

Variable E : Env.
Variable self : QwenAPIInference.





End Batch.

Section Runs.

Variable E : Env.
Variable self : QwenAPIInference.
Variable input_data : list Item.

Lemma process_item_ok_events (p : str) (st st' : State E) (r : json) :
  process_item E self input_data p st = (Ok r, st') ->
  exists req,
    request_of E self input_data p req
    /\ trace st' = trace st ++ item_events (p, req).
Proof.
  rewrite process_item_eq.
  destruct (load_size E p DEFAULT_MAX_WIDTH DEFAULT_MAX_HEIGHT);
    [|discriminate].
  destruct (file_read E p) as [raw|] eqn:Hread; [|discriminate].
  destruct (first_text_input input_data) as [text|] eqn:Htext; [|discriminate].
  intros H. exists (build_request self text (data_url raw)). split.
  - exists raw, text. auto.
  - pose proof (try_request_trace E p (build_request self text (data_url raw))
                                  (after_files p st)) as Ht.
    rewrite H in Ht. cbn [snd] in Ht. rewrite Ht.
    cbn [after_files log trace item_events fst snd].
    rewrite <- !app_assoc. reflexivity.
Qed.

Lemma processes_events (st st' : State E) (ps : list str) (rs : list json) :
  processes E self input_data st ps rs st' ->
  exists reqs,
    Forall2 (request_of E self input_data) ps reqs
    /\ trace st' = trace st ++ flat_map item_events (combine ps reqs).
Proof.
  induction 1 as [st|st st1 st2 p r ps rs Hp _ (reqs & Hreqs & Htr)].
  - exists []. split; [constructor|]. cbn. rewrite app_nil_r. reflexivity.
  - destruct (process_item_ok_events p st st1 r Hp) as (req & Hreq & Ht).
    exists (req :: reqs). split; [constructor; assumption|].
    rewrite Htr, Ht. cbn [combine flat_map]. rewrite <- app_assoc.
    reflexivity.
Qed.

Lemma posted_item_events (prs : list (str * Request)) :
  posted (flat_map item_events prs) = List.map snd prs.
Proof.
  induction prs as [|[p req] prs IH]; [reflexivity|].
  cbn [flat_map]. unfold posted in *. rewrite flat_map_app, IH. reflexivity.
Qed.

Lemma map_snd_combine {A B : Type} (R : A -> B -> Prop) (a : list A)
      (b : list B) :
  Forall2 R a b -> List.map snd (combine a b) = b.
Proof. induction 1; cbn; congruence. Qed.

Lemma inference_requests
      (mode : option str) (st st' : State E) (results : list json) :
  is_static mode = false ->
  inference E self input_data mode st = (Ok results, st') ->
  exists reqs,
    Forall2 (request_of E self input_data)
            (_extract_file_paths E input_data) reqs
    /\ trace st'
       = trace st
         ++ flat_map item_events
                     (combine (_extract_file_paths E input_data) reqs)
    /\ posted (trace st') = posted (trace st) ++ reqs.
Proof.
  intros Hmode Hok. rewrite inference_not_static in Hok by exact Hmode.
  destruct (inference_loop_ok E self input_data _ _ _ _ _ Hok)
    as (rs & _ & Hrun).
  destruct (processes_events _ _ _ _ Hrun) as (reqs & Hreqs & Htr).
  exists reqs. split; [exact Hreqs|]. split; [exact Htr|].
  rewrite Htr. unfold posted at 1. rewrite flat_map_app.
  fold (posted (trace st)).
  fold (posted (flat_map item_events
                         (combine (_extract_file_paths E input_data) reqs))).
  rewrite posted_item_events, (map_snd_combine _ _ _ Hreqs). reflexivity.
Qed.

(** X2: a call that returns a list has, for each worklist path in
    order, opened the image, read the file and posted one request built
    from the first item's text and that file's bytes, and nothing else. *)
Theorem returned_list_means_one_request_per_path
        (mode : option str) (st st' : State E) (results : list json) :
  is_static mode = false ->
  inference E self input_data mode st = (Ok results, st') ->
  exists reqs,
    Forall2 (request_of E self input_data)
            (_extract_file_paths E input_data) reqs
    /\ trace st'
       = trace st
         ++ flat_map item_events
                     (combine (_extract_file_paths E input_data) reqs)
    /\ posted (trace st') = posted (trace st) ++ reqs.
Proof. exact (inference_requests mode st st' results). Qed.

Lemma text_of_build_request (text image_data_url : str) :
  text_of (build_request self text image_data_url) = Ok (JStr text).
Proof. reflexivity. Qed.

(** X3: every request of a call carries the text of the first item of
    the batch and goes to [api_url], also for paths that a later item
    lists. *)
Theorem every_request_carries_first_text
        (mode : option str) (st st' : State E) (results : list json)
        (first : Item) (others : list Item) (text : str) :
  input_data = first :: others ->
  text_input first = Some text ->
  is_static mode = false ->
  inference E self input_data mode st = (Ok results, st') ->
  exists reqs,
    posted (trace st') = posted (trace st) ++ reqs
    /\ List.length reqs = List.length (_extract_file_paths E input_data)
    /\ Forall (fun req => text_of req = Ok (JStr text)
                          /\ url req = api_url self) reqs.
Proof.
  intros Hin Hfirst Hmode Hok.
  destruct (inference_requests mode st st' results Hmode Hok)
    as (reqs & Hreqs & _ & Hposted).
  exists reqs. split; [exact Hposted|]. split.
  - symmetry. eapply Forall2_length. exact Hreqs.
  - assert (Htext : first_text_input input_data = Ok text).
    { rewrite Hin. cbn. rewrite Hfirst. reflexivity. }
    clear Hposted Hok.
    induction Hreqs as [|p req ps reqs (raw & text' & _ & Ht & ->) _ IH];
      constructor; [|exact IH].
    rewrite Htext in Ht. inversion Ht; subst. split; reflexivity.
Qed.

(** X4: when the first item has no ["text_input"] and the worklist is not
    empty, [inference] raises [KeyError] once the first image has been
    opened and read, and posts nothing. *)
Theorem missing_text_input_raises
        (mode : option str) (st : State E) (first : Item) (others : list Item)
        (p : str) (rest : list str) (size : Z * Z) (raw : list byte) :
  input_data = first :: others ->
  text_input first = None ->
  is_static mode = false ->
  _extract_file_paths E input_data = p :: rest ->
  load_size E p DEFAULT_MAX_WIDTH DEFAULT_MAX_HEIGHT = Ok size ->
  file_read E p = Ok raw ->
  inference E self input_data mode st
  = (Raise (KeyError (u "text_input")), after_files p st)
  /\ posted (trace (after_files p st)) = posted (trace st).
Proof.
  intros Hin Hnone Hmode Hlist Hload Hread.
  rewrite inference_not_static by exact Hmode. rewrite Hlist.
  split.
  - apply (inference_loop_raise E self input_data st st _ [] rest p [] []
             _ (processes_nil _ _ _ _)).
    rewrite process_item_eq, Hload, Hread, Hin. cbn. rewrite Hnone.
    reflexivity.
  - cbn [after_files log trace]. unfold posted. rewrite !flat_map_app. cbn.
    rewrite !app_nil_r. reflexivity.
Qed.


End Runs.

Section Composition.

Variable E : Env.
Variable self : QwenAPIInference.

Lemma process_item_text_only (i1 i2 : list Item) (p : str) (st : State E) :
  first_text_input i1 = first_text_input i2 ->
  process_item E self i1 p st = process_item E self i2 p st.
Proof. intros H. rewrite !process_item_eq, H. reflexivity. Qed.

Lemma inference_loop_text_only (i1 i2 : list Item) (ps : list str) :
  first_text_input i1 = first_text_input i2 ->
  forall acc st,
    inference_loop E self i1 ps acc st = inference_loop E self i2 ps acc st.
Proof.
  intros H. induction ps as [|p ps IH]; intros acc st; [reflexivity|].
  cbn [inference_loop]. unfold bind.
  rewrite (process_item_text_only i1 i2 p st H).
  destruct (process_item E self i2 p st) as [[r|e] st1]; [apply IH|reflexivity].
Qed.

Lemma inference_loop_app (input_data : list Item) (a b : list str) :
  forall acc st,
    inference_loop E self input_data (a ++ b) acc st
    = match inference_loop E self input_data a acc st with
      | (Ok ra, st1) => inference_loop E self input_data b ra st1
      | (Raise e, st1) => (Raise e, st1)
      end.
Proof.
  induction a as [|p a IH]; intros acc st; [reflexivity|].
  cbn [app inference_loop]. unfold bind.
  destruct (process_item E self input_data p st) as [[r|e] st1];
    [apply IH|reflexivity].
Qed.

Lemma inference_loop_acc (input_data : list Item) (ps : list str) :
  forall acc st,
    inference_loop E self input_data ps acc st
    = match inference_loop E self input_data ps [] st with
      | (Ok rs, st') => (Ok (acc ++ rs), st')
      | (Raise e, st') => (Raise e, st')
      end.
Proof.
  induction ps as [|p ps IH]; intros acc st.
  - cbn. unfold ret. rewrite app_nil_r. reflexivity.
  - cbn [inference_loop]. unfold bind.
    destruct (process_item E self input_data p st) as [[r|e] st1];
      [|reflexivity].
    rewrite (IH (acc ++ [r])), (IH ([] ++ [r])).
    destruct (inference_loop E self input_data ps [] st1) as [[rs|e] st2];
      [|reflexivity].
    cbn [app]. rewrite <- app_assoc. reflexivity.
Qed.

Lemma first_text_input_app (i1 i2 : list Item) :
  i1 <> [] -> first_text_input (i1 ++ i2) = first_text_input i1.
Proof. destruct i1; [congruence|reflexivity]. Qed.

(** X6: outside static mode, a batch made of two batches whose first
    items carry the same text gives what the two give when run one after
    the other: the results concatenated, or the first exception. *)
Theorem inference_of_concatenated_batches
        (i1 i2 : list Item) (mode : option str) (st : State E) :
  is_static mode = false ->
  i1 <> [] ->
  first_text_input i1 = first_text_input i2 ->
  inference E self (i1 ++ i2) mode st
  = match inference E self i1 mode st with
    | (Ok r1, st1) =>
      match inference E self i2 mode st1 with
      | (Ok r2, st2) => (Ok (r1 ++ r2), st2)
      | (Raise e, st2) => (Raise e, st2)
      end
    | (Raise e, st1) => (Raise e, st1)
    end.
Proof.
  intros Hmode Hne Htext. rewrite !inference_not_static by exact Hmode.
  rewrite extract_file_paths_app, inference_loop_app.
  rewrite (inference_loop_text_only (i1 ++ i2) i1)
    by (apply first_text_input_app; exact Hne).
  destruct (inference_loop E self i1 (_extract_file_paths E i1) [] st)
    as [[r1|e] st1]; [|reflexivity].
  rewrite inference_not_static by exact Hmode.
  rewrite (inference_loop_text_only (i1 ++ i2) i2)
    by (rewrite first_text_input_app by exact Hne; exact Htext).
  apply inference_loop_acc.
Qed.

End Composition.


Lemma returned_list_means_one_request_per_path_witness :
  let input := [Demo.item ["/data/small.png"; "/data/wide.png"]%string
                          "extract"] in
  let st := Demo.start [Demo.reply (JStr (u "{'total': 3}"));
                        Demo.server_error] in
  let out := inference Demo.env Demo.client input None st in
  (exists results, fst out = Ok results)
  /\ exists reqs,
       Forall2 (request_of Demo.env Demo.client input)
               [Demo.SMALL; Demo.WIDE] reqs
       /\ trace (snd out)
          = flat_map item_events (combine [Demo.SMALL; Demo.WIDE] reqs)
       /\ posted (trace (snd out)) = reqs.
Proof.
  intros input st out.
  destruct (fst out) as [results|e] eqn:Hout.
  2:{ vm_compute in Hout. discriminate Hout. }
  assert (Hrun : inference Demo.env Demo.client input None st
                 = (Ok results, snd out)).
  { fold out. rewrite <- Hout. apply surjective_pairing. }
  split; [exists results; reflexivity|].
  exact (returned_list_means_one_request_per_path
           Demo.env Demo.client input None st (snd out) results
           eq_refl Hrun).
Defined.

Lemma every_request_carries_first_text_witness :
  let first := Demo.item ["/data/small.png"]%string "extract the total" in
  let second := Demo.item ["/data/wide.png"]%string "list the line items" in
  let st := Demo.start [Demo.reply (JStr (u "{'total': 3}"));
                        Demo.reply (JStr (u "no items"))] in
  let out := inference Demo.env Demo.client [first; second] None st in
  (exists results, fst out = Ok results)
  /\ exists reqs,
       posted (trace (snd out)) = reqs
       /\ List.length reqs = 2%nat
       /\ Forall (fun req =>
                    text_of req = Ok (JStr (u "extract the total"))
                    /\ url req = api_url Demo.client) reqs.
Proof.
  intros first second st out.
  destruct (fst out) as [results|e] eqn:Hout.
  2:{ vm_compute in Hout. discriminate Hout. }
  assert (Hrun : inference Demo.env Demo.client [first; second] None st
                 = (Ok results, snd out)).
  { fold out. rewrite <- Hout. apply surjective_pairing. }
  split; [exists results; reflexivity|].
  exact (every_request_carries_first_text
           Demo.env Demo.client [first; second] None st (snd out) results
           first [second] (u "extract the total")
           eq_refl eq_refl eq_refl Hrun).
Defined.

Lemma missing_text_input_raises_witness :
  let first := {| file_path := Some [u "/data/small.png"; u "/data/wide.png"];
                  text_input := None |} in
  let second := Demo.item [] "extract" in
  let st := Demo.start [Demo.reply (JStr (u "{}"))] in
  inference Demo.env Demo.client [first; second] None st
  = (Raise (KeyError (u "text_input")), after_files Demo.SMALL st)
  /\ posted (trace (after_files Demo.SMALL st)) = posted (trace st).
Proof.
  intros first second st.
  assert (Hlist : _extract_file_paths Demo.env [first; second]
                  = Demo.SMALL :: [Demo.WIDE]) by (vm_compute; reflexivity).
  exact (missing_text_input_raises
           Demo.env Demo.client [first; second] None st first [second]
           Demo.SMALL [Demo.WIDE] (800, 600) Demo.small_raw
           eq_refl eq_refl eq_refl Hlist eq_refl eq_refl).
Defined.


Lemma inference_of_concatenated_batches_witness :
  let i1 := [Demo.item ["/data/small.png"]%string "extract"] in
  let i2 := [Demo.item ["/data/wide.png"; "/data/small.png"]%string
                       "extract"] in
  let good := Demo.reply (JStr (u "{'total': 3}")) in
  let st := Demo.start [good; Demo.server_error; good] in
  inference Demo.env Demo.client (i1 ++ i2) None st
  = match inference Demo.env Demo.client i1 None st with
    | (Ok r1, st1) =>
      match inference Demo.env Demo.client i2 None st1 with
      | (Ok r2, st2) => (Ok (r1 ++ r2), st2)
      | (Raise e, st2) => (Raise e, st2)
      end
    | (Raise e, st1) => (Raise e, st1)
    end.
Proof.
  intros i1 i2 good st.
  apply (inference_of_concatenated_batches Demo.env Demo.client i1 i2 None st).
  - reflexivity.
  - discriminate.
  - reflexivity.
Defined.

(** ** Sizes at the edges *)

Section Resize.

Variable E : Env.

(** What [load_size] does with an image that exceeds a default bound. *)
Lemma load_size_exceeding (p : str) (w h : Z) :
  Image_open E p = Ok (w, h) ->
  0 < w < 2 ^ 31 -> 0 < h < 2 ^ 31 ->
  1250 < w \/ 1750 < h ->
  exists N M : Z,
    new_size w h 1250 1750 = Ok (Z.min 1250 N, Z.min 1750 M)
    /\ load_size E p DEFAULT_MAX_WIDTH DEFAULT_MAX_HEIGHT
       = match Image_resize E p (Z.min 1250 N, Z.min 1750 M) with
         | Some e => Raise e
         | None => Ok (Z.min 1250 N, Z.min 1750 M)
         end
    /\ (0 <= N /\ N * h <= 1750 * w <= (N + 1) * h)
    /\ (0 <= M /\ M * w <= 1250 * h <= (M + 1) * w).
Proof.
  intros Hopen Hw Hh Hbig.
  destruct (new_size_brackets w h Hw Hh) as (N & M & Es & _ & HN & HM).
  exists N, M. split; [exact Es|]. split; [|split; assumption].
  rewrite (load_size_defaults E p w h Hopen) by lia. rewrite Es.
  destruct ((w >? 1250) || (h >? 1750)) eqn:Eb; [reflexivity|].
  apply orb_false_iff in Eb. lia.
Qed.

(** X7: a resize scales to the box: for an image taller than 1250:1750
    the new height is 1750 or 1749, otherwise the new width is 1250. *)
Theorem resized_image_fills_the_box (p : str) (w h nw nh : Z) :
  Image_open E p = Ok (w, h) ->
  0 < w < 2 ^ 31 -> 0 < h < 2 ^ 31 ->
  1250 < w \/ 1750 < h ->
  load_size E p DEFAULT_MAX_WIDTH DEFAULT_MAX_HEIGHT = Ok (nw, nh) ->
  (1750 * w <= 1250 * h -> 1749 <= nh <= 1750)
  /\ (1250 * h < 1750 * w -> nw = 1250)
  /\ (nw = 1250 \/ 1749 <= nh).
Proof.
  intros Hopen Hw Hh Hbig Hload.
  destruct (load_size_exceeding p w h Hopen Hw Hh Hbig)
    as (N & M & _ & Hl & (HN0 & HN1 & HN2) & (HM0 & HM1 & HM2)).
  rewrite Hl in Hload.
  destruct (Image_resize E p (Z.min 1250 N, Z.min 1750 M)); [discriminate|].
  inversion Hload; subst nw nh. clear Hload Hl.
  assert (HA : 1750 * w <= 1250 * h -> 1749 <= Z.min 1750 M <= 1750).
  { intros Hc. assert (1749 <= M) by nia. lia. }
  assert (HB : 1250 * h < 1750 * w -> Z.min 1250 N = 1250).
  { intros Hc. assert (1250 <= N) by nia. lia. }
  split; [exact HA|]. split; [exact HB|].
  destruct (Z_le_gt_dec (1750 * w) (1250 * h)); [right|left]; [|apply HB; lia].
  apply HA. lia.
Qed.

(** X8: an image more than 1250 times wider than high is given the
    target size 1250 x 0, and one more than 1750 times higher than wide
    the size 0 x 1750: [image.resize] is called with a zero side. *)
Theorem extreme_aspect_gives_zero_side (p : str) (w h : Z) :
  Image_open E p = Ok (w, h) ->
  0 < w < 2 ^ 31 -> 0 < h < 2 ^ 31 ->
  (1250 * h < w ->
   load_size E p DEFAULT_MAX_WIDTH DEFAULT_MAX_HEIGHT
   = match Image_resize E p (1250, 0) with
     | Some e => Raise e
     | None => Ok (1250, 0)
     end)
  /\ (1750 * w < h ->
      load_size E p DEFAULT_MAX_WIDTH DEFAULT_MAX_HEIGHT
      = match Image_resize E p (0, 1750) with
        | Some e => Raise e
        | None => Ok (0, 1750)
        end).
Proof.
  intros Hopen Hw Hh. split; intros Hc.
  - destruct (load_size_exceeding p w h Hopen Hw Hh ltac:(lia))
      as (N & M & _ & Hl & (HN0 & HN1 & HN2) & (HM0 & HM1 & HM2)).
    assert (HM : M = 0) by nia. assert (HN : 1250 <= N) by nia.
    rewrite Hl. rewrite (Z.min_l 1250 N) by lia. subst M. reflexivity.
  - destruct (load_size_exceeding p w h Hopen Hw Hh ltac:(lia))
      as (N & M & _ & Hl & (HN0 & HN1 & HN2) & (HM0 & HM1 & HM2)).
    assert (HN : N = 0) by nia. assert (HM : 1750 <= M) by nia.
    rewrite Hl. rewrite (Z.min_l 1750 M) by lia. subst N. reflexivity.
Qed.

(** X9: when the width is at most 625 times the height and the height
    at most 875 times the width, both sides of the new size are at least
    one pixel. *)
Theorem moderate_aspect_gives_positive_sides (p : str) (w h nw nh : Z) :
  Image_open E p = Ok (w, h) ->
  0 < w < 2 ^ 31 -> 0 < h < 2 ^ 31 ->
  1250 < w \/ 1750 < h ->
  2 * w <= 1250 * h -> 2 * h <= 1750 * w ->
  load_size E p DEFAULT_MAX_WIDTH DEFAULT_MAX_HEIGHT = Ok (nw, nh) ->
  1 <= nw /\ 1 <= nh.
Proof.
  intros Hopen Hw Hh Hbig Hr1 Hr2 Hload.
  destruct (load_size_exceeding p w h Hopen Hw Hh Hbig)
    as (N & M & _ & Hl & (HN0 & HN1 & HN2) & (HM0 & HM1 & HM2)).
  rewrite Hl in Hload.
  destruct (Image_resize E p (Z.min 1250 N, Z.min 1750 M)); [discriminate|].
  inversion Hload; subst nw nh.
  assert (1 <= N) by nia. assert (1 <= M) by nia. lia.
Qed.


End Resize.

Lemma resized_image_fills_the_box_witness :
  Image_open Demo.env Demo.WIDE = Ok (2000, 100)
  /\ load_size Demo.env Demo.WIDE DEFAULT_MAX_WIDTH DEFAULT_MAX_HEIGHT
     = Ok (1250, 62)
  /\ (1250 = 1250 \/ 1749 <= 62).
Proof.
  assert (Hl : load_size Demo.env Demo.WIDE DEFAULT_MAX_WIDTH DEFAULT_MAX_HEIGHT
               = Ok (1250, 62)) by (vm_compute; reflexivity).
  split; [reflexivity|]. split; [exact Hl|].
  apply (resized_image_fills_the_box Demo.env Demo.WIDE 2000 100 1250 62
           eq_refl); try lia. exact Hl.
Defined.

Lemma extreme_aspect_gives_zero_side_witness :
  load_size Gallery.env Gallery.SLIVER DEFAULT_MAX_WIDTH DEFAULT_MAX_HEIGHT
  = Raise (ValueError (u "height and width must be > 0"))
  /\ load_size Gallery.env Gallery.STRIP DEFAULT_MAX_WIDTH DEFAULT_MAX_HEIGHT
     = Raise (ValueError (u "height and width must be > 0")).
Proof.
  split.
  - rewrite (proj1 (extreme_aspect_gives_zero_side
                      Gallery.env Gallery.SLIVER 4000 1 eq_refl
                      ltac:(lia) ltac:(lia)) ltac:(lia)).
    reflexivity.
  - rewrite (proj2 (extreme_aspect_gives_zero_side
                      Gallery.env Gallery.STRIP 1 4000 eq_refl
                      ltac:(lia) ltac:(lia)) ltac:(lia)).
    reflexivity.
Defined.

Lemma moderate_aspect_gives_positive_sides_witness :
  Image_open Demo.env Demo.WIDE = Ok (2000, 100)
  /\ load_size Demo.env Demo.WIDE DEFAULT_MAX_WIDTH DEFAULT_MAX_HEIGHT
     = Ok (1250, 62)
  /\ 1 <= 1250 /\ 1 <= 62.
Proof.
  assert (Hl : load_size Demo.env Demo.WIDE DEFAULT_MAX_WIDTH DEFAULT_MAX_HEIGHT
               = Ok (1250, 62)) by (vm_compute; reflexivity).
  split; [reflexivity|]. split; [exact Hl|].
  apply (moderate_aspect_gives_positive_sides Demo.env Demo.WIDE 2000 100
           1250 62 eq_refl); try lia. exact Hl.
Defined.


(** ** The text [process_response] works on *)

Lemma piece_of_refl (s : str) : piece_of s s.
Proof. exists [], []. rewrite app_nil_r. reflexivity. Qed.

Lemma piece_of_trans (a b c : str) : piece_of a b -> piece_of b c -> piece_of a c.
Proof.
  intros (p1 & q1 & ->) (p2 & q2 & ->). exists (p2 ++ p1), (q1 ++ q2).
  rewrite <- !app_assoc. reflexivity.
Qed.

Lemma lstrip_by_suffix (p : char -> bool) (s : str) :
  exists before, s = before ++ PyStr.lstrip_by p s.
Proof.
  induction s as [|c t [b Hb]]; [exists []; reflexivity|].
  cbn. destruct (p c).
  - exists (c :: b). cbn. congruence.
  - exists []. reflexivity.
Qed.

Lemma strip_by_piece (p : char -> bool) (s : str) :
  piece_of (PyStr.strip_by p s) s.
Proof.
  unfold PyStr.strip_by, PyStr.rstrip_by.
  destruct (lstrip_by_suffix p s) as [b Hb].
  destruct (lstrip_by_suffix p (rev (PyStr.lstrip_by p s))) as [a Ha].
  exists b, (rev a).
  rewrite Hb at 1. f_equal.
  rewrite <- (rev_involutive (PyStr.lstrip_by p s)) at 1.
  rewrite Ha at 1. rewrite rev_app_distr. reflexivity.
Qed.

Lemma slice_piece (s : str) (a b : Z) : piece_of (PyStr.slice s a b) s.
Proof.
  unfold PyStr.slice. destruct (_ <=? _).
  - exists [], s. reflexivity.
  - set (i := Z.to_nat (PyStr.clamp (PyStr.len s) a)).
    set (n := Z.to_nat (_ - _)).
    exists (firstn i s), (skipn n (skipn i s)).
    rewrite firstn_skipn, firstn_skipn. reflexivity.
Qed.

Lemma fence_step_piece (raw : str) : piece_of (fence_step raw) raw.
Proof.
  unfold fence_step. destruct (PyStr.contains _ raw); [|apply piece_of_refl].
  destruct (negb _); [|apply piece_of_refl].
  eapply piece_of_trans; [apply strip_by_piece|apply slice_piece].
Qed.

(** X11: when the cleaned text does not parse, [process_response]
    returns a contiguous piece of its input, and the input itself when it
    holds no ["```json"]. *)
Theorem fallback_returns_piece_of_input (raw : str) :
  Json.loads (clean (fence_step raw)) = None ->
  piece_of (process_response raw) raw
  /\ (PyStr.contains (u "```json") raw = false -> process_response raw = raw).
Proof.
  intros Hfail. rewrite (process_response_fallback raw Hfail). split.
  - apply fence_step_piece.
  - intros Hno. unfold fence_step. rewrite Hno. reflexivity.
Qed.

(** [replace] of one character by one character is a map. *)
Lemma replace_single (s : str) (a b : char) :
  PyStr.replace s [a] [b]
  = List.map (fun c => if (a =? c)%N then b else c) s.
Proof.
  unfold PyStr.replace. induction s as [|c t IH]; [reflexivity|].
  cbn [PyStr.replace_aux PyStr.startswith List.length Nat.sub List.map].
  rewrite andb_true_r. destruct (a =? c)%N; cbn [app]; rewrite IH; reflexivity.
Qed.

Lemma lstrip_by_head (p : char -> bool) (s : str) (c : char) (t : str) :
  PyStr.lstrip_by p s = c :: t -> p c = false.
Proof.
  induction s as [|d s IH]; cbn; [discriminate|].
  destruct (p d) eqn:E; [exact IH|]. intros H. inversion H; subst. exact E.
Qed.

Lemma lstrip_by_fixed (p : char -> bool) (s : str) (c : char) (t : str) :
  s = c :: t -> p c = false -> PyStr.lstrip_by p s = s.
Proof. intros -> H. cbn. rewrite H. reflexivity. Qed.

Lemma strip_by_ends (p : char -> bool) (s : str) :
  (forall c t, PyStr.strip_by p s = c :: t -> p c = false)
  /\ (forall c t, PyStr.strip_by p s = t ++ [c] -> p c = false).
Proof.
  unfold PyStr.strip_by, PyStr.rstrip_by.
  set (l := PyStr.lstrip_by p s).
  set (r := PyStr.lstrip_by p (rev l)).
  assert (Hlast : forall c t, rev r = t ++ [c] -> p c = false).
  { intros c t H. apply (f_equal (@rev char)) in H.
    rewrite rev_involutive, rev_app_distr in H. cbn in H.
    apply (lstrip_by_head p (rev l) c (rev t)). exact H. }
  split; [|exact Hlast].
  intros c t H.
  (* the head of [rev r] is the head of [l], or [r] is empty *)
  destruct (lstrip_by_suffix p (rev l)) as [b Hb]. fold r in Hb.
  apply (f_equal (@rev char)) in Hb.
  rewrite rev_involutive, rev_app_distr in Hb.
  rewrite H in Hb. cbn [app] in Hb.
  apply (lstrip_by_head p s c (t ++ rev b)). exact Hb.
Qed.

(** X12: the text handed to [json.loads] holds no single quote, and
    neither starts nor ends with a square bracket or a single quote. *)
Theorem cleaned_text_has_no_single_quote (output_text : str) :
  ~ In SQUOTE (clean output_text)
  /\ (forall c t, clean output_text = c :: t ->
                  c <> 91%N /\ c <> 93%N /\ c <> SQUOTE)
  /\ (forall c t, clean output_text = t ++ [c] ->
                  c <> 91%N /\ c <> 93%N /\ c <> SQUOTE).
Proof.
  unfold clean. change (u "'") with [SQUOTE]. rewrite replace_single.
  set (f := fun c : char => if (SQUOTE =? c)%N then DQUOTE else c).
  set (s := PyStr.strip_chars (u "[]'") output_text).
  assert (Hf : forall c, PyStr.mem c (u "[]'") = false ->
                         f c = c /\ c <> 91%N /\ c <> 93%N /\ c <> SQUOTE).
  { intros c Hc. unfold PyStr.mem in Hc. cbn in Hc.
    apply orb_false_iff in Hc. destruct Hc as [H1 Hc].
    apply orb_false_iff in Hc. destruct Hc as [H2 Hc].
    apply orb_false_iff in Hc. destruct Hc as [H3 _].
    apply N.eqb_neq in H1, H2, H3. unfold f, SQUOTE.
    destruct (39 =? c)%N eqn:E; [apply N.eqb_eq in E; congruence|].
    repeat split; assumption. }
  destruct (strip_by_ends (fun c => PyStr.mem c (u "[]'")) output_text)
    as [Hhead Hlast].
  fold (PyStr.strip_chars (u "[]'") output_text) in Hhead, Hlast. fold s in Hhead, Hlast.
  split; [|split].
  - intros Hin. apply in_map_iff in Hin. destruct Hin as (c & Hc & _).
    unfold f in Hc. destruct (SQUOTE =? c)%N eqn:E.
    + discriminate.
    + apply N.eqb_neq in E. congruence.
  - intros c t H. destruct s as [|d s']; [discriminate|].
    cbn [List.map] in H. injection H as Hc _.
    destruct (Hf d (Hhead d s' eq_refl)) as (Efd & Hrest).
    assert (Hcd : c = d) by (rewrite <- Hc; exact Efd).
    rewrite Hcd. exact Hrest.
  - intros c t H.
    destruct (rev s) as [|d s'] eqn:Hrev.
    + apply (f_equal (@rev char)) in Hrev. rewrite rev_involutive in Hrev.
      rewrite Hrev in H. destruct t; discriminate.
    + apply (f_equal (@rev char)) in Hrev. rewrite rev_involutive in Hrev.
      cbn [rev] in Hrev. rewrite Hrev, map_app in H. cbn [List.map] in H.
      apply app_inj_tail in H. destruct H as [_ Hc].
      destruct (Hf d (Hlast d (rev s') Hrev)) as (Efd & Hrest).
      assert (Hcd : c = d) by (rewrite <- Hc; exact Efd).
      rewrite Hcd. exact Hrest.
Qed.

Lemma find_at_no_head (a : char) (sub' : str) :
  forall s i, ~ In a s -> PyStr.find_at (a :: sub') s i = -1.
Proof.
  induction s as [|c t IH]; intros i Hn; [reflexivity|].
  cbn [PyStr.find_at PyStr.startswith].
  destruct (a =? c)%N eqn:E.
  - apply N.eqb_eq in E. subst. exfalso. apply Hn. left. reflexivity.
  - cbn [andb]. apply IH. intros H. apply Hn. right. exact H.
Qed.

Lemma find_at_skip (a : char) (sub' : str) (rest : str) :
  PyStr.startswith (a :: sub') rest = true ->
  forall before i, ~ In a before ->
    PyStr.find_at (a :: sub') (before ++ rest) i = i + PyStr.len before.
Proof.
  intros Hrest. induction before as [|c t IH]; intros i Hn.
  - cbn [app]. destruct rest as [|r rest']; [discriminate|].
    cbn [PyStr.find_at]. rewrite Hrest. unfold PyStr.len, PyStr.len'. cbn. lia.
  - cbn [app PyStr.find_at PyStr.startswith].
    destruct (a =? c)%N eqn:E.
    + apply N.eqb_eq in E. subst. exfalso. apply Hn. left. reflexivity.
    + cbn [andb]. rewrite IH by (intros H; apply Hn; right; exact H).
      rewrite len_cons. lia.
Qed.

Lemma startswith_app (sub rest : str) : PyStr.startswith sub (sub ++ rest) = true.
Proof.
  induction sub as [|a sub IH]; [reflexivity|].
  cbn. rewrite N.eqb_refl. exact IH.
Qed.

Lemma len_app (a b : str) : PyStr.len (a ++ b) = PyStr.len a + PyStr.len b.
Proof. unfold PyStr.len, PyStr.len'. rewrite length_app. lia. Qed.

Lemma skipn_len_app (a b : str) : skipn (Z.to_nat (PyStr.len a)) (a ++ b) = b.
Proof.
  unfold PyStr.len, PyStr.len'. rewrite Nat2Z.id.
  rewrite skipn_app, skipn_all, Nat.sub_diag. reflexivity.
Qed.

Lemma no_fence_without_backtick (s : str) :
  ~ In BACKTICK s -> fence_step s = s.
Proof.
  intros Hn. unfold fence_step, PyStr.contains, PyStr.find, PyStr.find_from.
  pose proof (len_nonneg s). destruct (0 <? 0) eqn:E0; [lia|].
  destruct (PyStr.len s <? 0) eqn:E1; [lia|].
  cbn [Z.to_nat skipn]. change (u "```json") with (BACKTICK :: u "``json").
  rewrite (find_at_no_head BACKTICK (u "``json") s 0 Hn). reflexivity.
Qed.

Lemma piece_of_in (part whole : str) (c : char) :
  piece_of part whole -> In c part -> In c whole.
Proof.
  intros (b & a & ->) H. apply in_or_app. right. apply in_or_app. left. exact H.
Qed.

Lemma fence_step_fenced (before body after : str) :
  ~ In BACKTICK before -> ~ In BACKTICK body ->
  fence_step (before ++ u "```json" ++ body ++ u "```" ++ after)
  = PyStr.strip body.
Proof.
  intros Hb Hbody.
  set (whole := before ++ u "```json" ++ body ++ u "```" ++ after).
  pose proof (len_nonneg before) as Hlb. pose proof (len_nonneg body) as Hlbody.
  pose proof (len_nonneg after) as Hla.
  assert (Hlen : PyStr.len whole
                 = PyStr.len before + 7 + PyStr.len body + 3 + PyStr.len after).
  { unfold whole. rewrite !len_app.
    change (PyStr.len (u "```json")) with 7.
    change (PyStr.len (u "```")) with 3. lia. }
  assert (Hopen : PyStr.find whole (u "```json") = PyStr.len before).
  { unfold PyStr.find, PyStr.find_from.
    destruct (0 <? 0) eqn:E0; [lia|].
    destruct (PyStr.len whole <? 0) eqn:E1; [lia|].
    cbn [Z.to_nat skipn]. unfold whole.
    change (u "```json") with (BACKTICK :: u "``json") at 1.
    rewrite find_at_skip; [lia| |exact Hb].
    change (BACKTICK :: u "``json") with (u "```json"). apply startswith_app. }
  assert (Hclose : PyStr.find_from whole (u "```") (PyStr.len before + 7)
                   = PyStr.len before + 7 + PyStr.len body).
  { unfold PyStr.find_from.
    destruct (PyStr.len before + 7 <? 0) eqn:E0; [lia|].
    destruct (PyStr.len whole <? PyStr.len before + 7) eqn:E1; [lia|].
    assert (Hskip : skipn (Z.to_nat (PyStr.len before + 7)) whole
                    = body ++ u "```" ++ after).
    { unfold whole. rewrite (app_assoc before).
      replace (PyStr.len before + 7) with (PyStr.len (before ++ u "```json"))
        by (rewrite len_app; reflexivity).
      apply skipn_len_app. }
    rewrite Hskip. change (u "```") with (BACKTICK :: u "``") at 1.
    rewrite find_at_skip; [reflexivity| |exact Hbody].
    change (BACKTICK :: u "``") with (u "```"). apply startswith_app. }
  unfold fence_step, PyStr.contains. rewrite Hopen.
  destruct (0 <=? PyStr.len before) eqn:E; [|lia].
  rewrite Hclose.
  destruct (PyStr.len before + 7 + PyStr.len body =? -1) eqn:E2; [lia|].
  cbn [negb]. f_equal.
  rewrite slice_between by lia.
  replace (PyStr.len before + 7 + PyStr.len body - (PyStr.len before + 7))
    with (PyStr.len body) by lia.
  unfold whole. rewrite (app_assoc before).
  replace (PyStr.len before + 7) with (PyStr.len (before ++ u "```json"))
    by (rewrite len_app; reflexivity).
  rewrite skipn_len_app. unfold PyStr.len, PyStr.len'. rewrite Nat2Z.id.
  rewrite firstn_app, firstn_all, Nat.sub_diag. cbn [firstn].
  apply app_nil_r.
Qed.

(** X13: text before and after a fenced block is ignored: when neither
    the text before the opening fence nor the block holds a backtick,
    [process_response] gives what it gives on the stripped block alone. *)
Theorem text_around_fence_is_ignored (before body after : str) :
  ~ In BACKTICK before -> ~ In BACKTICK body ->
  process_response (before ++ u "```json" ++ body ++ u "```" ++ after)
  = process_response (PyStr.strip body).
Proof.
  intros Hb Hbody. rewrite !process_response_unfold.
  rewrite (fence_step_fenced before body after Hb Hbody).
  rewrite (no_fence_without_backtick (PyStr.strip body)); [reflexivity|].
  intros Hin. apply Hbody.
  eapply piece_of_in; [apply strip_by_piece|exact Hin].
Qed.

Lemma text_around_fence_is_ignored_witness :
  ~ In BACKTICK (u "Here is the result: ")
  /\ ~ In BACKTICK (u " {'a': 1} ")
  /\ process_response
       (u "Here is the result: " ++ u "```json" ++ u " {'a': 1} "
          ++ u "```" ++ u " Hope this helps!")
     = Json.dumps (JObj [(u "a", JInt 1)]) 2.
Proof.
  assert (H1 : ~ In BACKTICK (u "Here is the result: ")).
  { vm_compute. intuition discriminate. }
  assert (H2 : ~ In BACKTICK (u " {'a': 1} ")).
  { vm_compute. intuition discriminate. }
  split; [exact H1|]. split; [exact H2|].
  rewrite (text_around_fence_is_ignored _ _ _ H1 H2). vm_compute. reflexivity.
Defined.

Lemma fallback_returns_piece_of_input_witness :
  let fenced := u "Result: ```json not json``` (sorry)" in
  let plain := u "I cannot read this image." in
  (process_response fenced = u "not json"
   /\ piece_of (process_response fenced) fenced)
  /\ process_response plain = plain.
Proof.
  intros fenced plain. split.
  - split; [vm_compute; reflexivity|].
    apply (fallback_returns_piece_of_input fenced). vm_compute. reflexivity.
  - apply (proj2 (fallback_returns_piece_of_input plain
                    ltac:(vm_compute; reflexivity))).
    vm_compute. reflexivity.
Defined.

Lemma cleaned_text_has_no_single_quote_witness :
  let output_text := u "['{'a': 'b'}']" in
  clean output_text = [123; 34; 97; 34; 58; 32; 34; 98; 34; 125]%N
  /\ ~ In SQUOTE (clean output_text)
  /\ 123%N <> 91%N /\ 125%N <> 93%N.
Proof.
  intros output_text.
  destruct (cleaned_text_has_no_single_quote output_text)
    as (Hno & Hfirst & Hlast).
  split; [vm_compute; reflexivity|]. split; [exact Hno|]. split.
  - exact (proj1 (Hfirst 123%N (List.tl (clean output_text))
                         ltac:(vm_compute; reflexivity))).
  - exact (proj1 (proj2 (Hlast 125%N (removelast (clean output_text))
                               ltac:(vm_compute; reflexivity)))).
Defined.

(** ** What a parsed answer is turned into *)


(** *** What [json.dumps] writes *)











(** *** What [json.loads] builds *)


Lemma plain_is_code_point (c : char) :
  is_plain c = true -> is_code_point c = true.
Proof.
  unfold is_plain, is_code_point. intros H. apply N.ltb_lt.
  apply orb_true_iff in H. destruct H as [H|H].
  - apply andb_true_iff in H. destruct H as [_ H]. apply N.leb_le in H. lia.
  - apply N.eqb_eq in H. lia.
Qed.












Lemma yields_fail {A : Type} (P : A -> Prop) : yields P PFail.
Proof. exact I. Qed.



















(** ** The data URL *)

Lemma list_ind3 {A : Type} (P : list A -> Prop) :
  P [] -> (forall a, P [a]) -> (forall a b, P [a; b]) ->
  (forall a b c rest, P rest -> P (a :: b :: c :: rest)) ->
  forall l, P l.
Proof.
  intros H0 H1 H2 H3.
  assert (H : forall n l, (List.length l <= n)%nat -> P l).
  { induction n as [|n IH]; intros l Hl.
    - destruct l; [exact H0|cbn in Hl; lia].
    - destruct l as [|a [|b [|c rest]]]; auto.
      apply H3. apply IH. cbn in Hl. lia. }
  intros l. apply (H (List.length l)). lia.
Qed.

Lemma alphabet_b64 (i : N) : is_b64_char (Base64.alphabet i) = true.
Proof.
  unfold Base64.alphabet, is_b64_char.
  destruct (i <? 26)%N eqn:E1.
  { apply N.ltb_lt in E1.
    assert (H : ((65 <=? 65 + i) && (65 + i <=? 90))%N = true).
    { apply andb_true_iff. split; apply N.leb_le; lia. }
    rewrite H. reflexivity. }
  destruct (i <? 52)%N eqn:E2.
  { apply N.ltb_lt in E2. apply N.ltb_ge in E1.
    assert (H : ((97 <=? 97 + (i - 26)) && (97 + (i - 26) <=? 122))%N = true).
    { apply andb_true_iff. split; apply N.leb_le; lia. }
    rewrite H. rewrite orb_true_r. reflexivity. }
  destruct (i <? 62)%N eqn:E3.
  { apply N.ltb_lt in E3. apply N.ltb_ge in E2.
    assert (H : ((48 <=? 48 + (i - 52)) && (48 + (i - 52) <=? 57))%N = true).
    { apply andb_true_iff. split; apply N.leb_le; lia. }
    rewrite H. rewrite !orb_true_r. reflexivity. }
  destruct (i =? 62)%N; reflexivity.
Qed.

Lemma b64encode_chars (bs : list byte) :
  forallb is_b64_char (Base64.b64encode bs) = true.
Proof.
  induction bs as [|a|a b|a b c rest IH] using list_ind3;
    cbn [Base64.b64encode forallb]; rewrite ?alphabet_b64, ?IH; reflexivity.
Qed.

Lemma b64encode_length (bs : list byte) :
  List.length (Base64.b64encode bs)
  = (4 * ((List.length bs + 2) / 3))%nat.
Proof.
  induction bs as [|a|a b|a b c rest IH] using list_ind3;
    try reflexivity.
  cbn [Base64.b64encode List.length]. rewrite IH.
  replace (S (S (S (List.length rest))) + 2)%nat
    with ((List.length rest + 2) + 1 * 3)%nat by lia.
  rewrite Nat.div_add by lia. lia.
Qed.

Lemma b64_char_unescaped (c : char) :
  is_b64_char c = true -> Json.escape_char c = [c].
Proof.
  unfold is_b64_char, Json.escape_char. intros H.
  repeat match type of H with
         | (_ || _ = true) => apply orb_true_iff in H; destruct H as [H|H]
         | (_ && _ = true) => apply andb_true_iff in H; destruct H as [? ?]
         end;
  repeat match goal with
         | H : (_ <=? _)%N = true |- _ => apply N.leb_le in H
         | H : (_ =? _)%N = true |- _ => apply N.eqb_eq in H
         end;
  repeat match goal with
         | |- context [(c =? ?k)%N] =>
           destruct (c =? k)%N eqn:?E;
             [apply N.eqb_eq in E; lia|clear E]
         end;
  (assert (Hp : ((32 <=? c) && (c <=? 126))%N = true)
     by (apply andb_true_iff; split; apply N.leb_le; lia));
  rewrite Hp; reflexivity.
Qed.

Lemma flat_map_unescaped (s : str) :
  forallb is_b64_char s = true -> flat_map Json.escape_char s = s.
Proof.
  induction s as [|c t IH]; [reflexivity|]. cbn [forallb flat_map].
  intros H. apply andb_true_iff in H. destruct H as [Hc Ht].
  rewrite (b64_char_unescaped c Hc), (IH Ht). reflexivity.
Qed.

(** X14: the data URL of a file of [n] bytes is the 23 characters
    ["data:image/jpeg;base64,"] followed by [4 * ceil(n / 3)] base64
    characters; [json.dumps] writes it between quotes without any
    escape. *)
Theorem data_url_is_json_safe (raw : list byte) :
  List.length (data_url raw)
  = (23 + 4 * ((List.length raw + 2) / 3))%nat
  /\ firstn 23 (data_url raw) = u "data:image/jpeg;base64,"
  /\ forallb is_b64_char (skipn 23 (data_url raw)) = true
  /\ Json.dumps (JStr (data_url raw)) 2
     = [DQUOTE] ++ data_url raw ++ [DQUOTE].
Proof.
  unfold data_url. split; [|split; [|split]].
  - rewrite length_app, b64encode_length. reflexivity.
  - reflexivity.
  - change (skipn 23 (u "data:image/jpeg;base64," ++ Base64.b64encode raw))
      with (Base64.b64encode raw). apply b64encode_chars.
  - unfold Json.dumps. cbn [Json.encode]. unfold Json.encode_string.
    rewrite flat_map_app. rewrite (flat_map_unescaped (Base64.b64encode raw))
      by apply b64encode_chars.
    reflexivity.
Qed.

Lemma to_N_inj (a b : byte) : Byte.to_N a = Byte.to_N b -> a = b.
Proof.
  intros H. pose proof (Byte.of_to_N a) as Ha. rewrite H, Byte.of_to_N in Ha.
  congruence.
Qed.

Lemma alphabet_inj (i j : N) :
  (i < 64)%N -> (j < 64)%N -> Base64.alphabet i = Base64.alphabet j -> i = j.
Proof.
  unfold Base64.alphabet. intros Hi Hj.
  destruct (i <? 26)%N eqn:I1; destruct (j <? 26)%N eqn:J1;
  destruct (i <? 52)%N eqn:I2; destruct (j <? 52)%N eqn:J2;
  destruct (i <? 62)%N eqn:I3; destruct (j <? 62)%N eqn:J3;
  destruct (i =? 62)%N eqn:I4; destruct (j =? 62)%N eqn:J4;
  repeat match goal with
         | H : (_ <? _)%N = true |- _ => apply N.ltb_lt in H
         | H : (_ <? _)%N = false |- _ => apply N.ltb_ge in H
         | H : (_ =? _)%N = true |- _ => apply N.eqb_eq in H
         | H : (_ =? _)%N = false |- _ => apply N.eqb_neq in H
         end; lia.
Qed.

Lemma alphabet_not_pad (i : N) : Base64.alphabet i <> Base64.PAD.
Proof.
  unfold Base64.alphabet, Base64.PAD.
  destruct (i <? 26)%N eqn:I1; destruct (i <? 52)%N eqn:I2;
  destruct (i <? 62)%N eqn:I3; destruct (i =? 62)%N eqn:I4;
  repeat match goal with
         | H : (_ <? _)%N = true |- _ => apply N.ltb_lt in H
         | H : (_ <? _)%N = false |- _ => apply N.ltb_ge in H
         end; lia.
Qed.

Ltac name_quotients :=
  repeat match goal with
         | H : context [(?a / ?b)%N] |- _ =>
           let q := fresh "q" in set (q := (a / b)%N) in *; clearbody q
         | H : context [(?a mod ?b)%N] |- _ =>
           let r := fresh "r" in set (r := (a mod b)%N) in *; clearbody r
         | |- context [(?a / ?b)%N] =>
           let q := fresh "q" in set (q := (a / b)%N) in *; clearbody q
         | |- context [(?a mod ?b)%N] =>
           let r := fresh "r" in set (r := (a mod b)%N) in *; clearbody r
         end.

Lemma sextets_inj3 (x y z x' y' z' : N) :
  (x <= 255 -> y <= 255 -> z <= 255 -> x' <= 255 -> y' <= 255 -> z' <= 255 ->
   x / 4 = x' / 4 ->
   (x mod 4) * 16 + y / 16 = (x' mod 4) * 16 + y' / 16 ->
   (y mod 16) * 4 + z / 64 = (y' mod 16) * 4 + z' / 64 ->
   z mod 64 = z' mod 64 ->
   x = x' /\ y = y' /\ z = z')%N.
Proof.
  intros.
  pose proof (N.div_mod x 4 ltac:(discriminate)).
  pose proof (N.div_mod x' 4 ltac:(discriminate)).
  pose proof (N.div_mod y 16 ltac:(discriminate)).
  pose proof (N.div_mod y' 16 ltac:(discriminate)).
  pose proof (N.div_mod z 64 ltac:(discriminate)).
  pose proof (N.div_mod z' 64 ltac:(discriminate)).
  pose proof (N.mod_lt x 4 ltac:(discriminate)).
  pose proof (N.mod_lt x' 4 ltac:(discriminate)).
  pose proof (N.mod_lt y 16 ltac:(discriminate)).
  pose proof (N.mod_lt y' 16 ltac:(discriminate)).
  pose proof (N.mod_lt z 64 ltac:(discriminate)).
  pose proof (N.mod_lt z' 64 ltac:(discriminate)).
  name_quotients. lia.
Qed.

Lemma sextet_bounds (x y : N) :
  (x <= 255 -> y <= 255 ->
   x / 4 < 64 /\ (x mod 4) * 16 + y / 16 < 64 /\ (x mod 16) * 4 + y / 64 < 64
   /\ x mod 64 < 64 /\ (x mod 4) * 16 < 64 /\ (x mod 16) * 4 < 64)%N.
Proof.
  intros.
  pose proof (N.div_mod x 4 ltac:(discriminate)).
  pose proof (N.mod_lt x 4 ltac:(discriminate)).
  pose proof (N.mod_lt x 16 ltac:(discriminate)).
  pose proof (N.mod_lt x 64 ltac:(discriminate)).
  pose proof (N.div_mod y 16 ltac:(discriminate)).
  pose proof (N.div_mod y 64 ltac:(discriminate)).
  name_quotients. lia.
Qed.

Lemma b64encode_injective :
  forall a b, Base64.b64encode a = Base64.b64encode b -> a = b.
Proof.
  assert (Hpad : forall i, Base64.alphabet i = Base64.PAD -> False)
    by (intros i; apply alphabet_not_pad).
  assert (Hpad' : forall i, Base64.PAD = Base64.alphabet i -> False)
    by (intros i H; symmetry in H; revert H; apply alphabet_not_pad).
  induction a as [|a1|a1 a2|a1 a2 a3 rest IH] using list_ind3;
    intros [|b1 [|b2 [|b3 rest']]] H;
    cbn [Base64.b64encode] in H; try discriminate H; try reflexivity;
    try (exfalso; injection H; intros; eauto; fail).
  - (* one byte *)
    injection H as E1 E2.
    pose proof (Byte.to_N_bounded a1) as B1.
    pose proof (Byte.to_N_bounded b1) as B1'.
    destruct (sextet_bounds (Byte.to_N a1) 0 B1 ltac:(discriminate))
      as (? & _ & _ & _ & ? & _).
    destruct (sextet_bounds (Byte.to_N b1) 0 B1' ltac:(discriminate))
      as (? & _ & _ & _ & ? & _).
    apply alphabet_inj in E1, E2; try assumption.
    destruct (sextets_inj3 (Byte.to_N a1) 0 0 (Byte.to_N b1) 0 0)
      as (Hx & _ & _); try assumption; try reflexivity; try discriminate.
    + change (0 / 16)%N with 0%N. rewrite !N.add_0_r. exact E2.
    + apply to_N_inj in Hx. subst. reflexivity.
  - (* two bytes *)
    injection H as E1 E2 E3.
    pose proof (Byte.to_N_bounded a1) as B1.
    pose proof (Byte.to_N_bounded a2) as B2.
    pose proof (Byte.to_N_bounded b1) as B1'.
    pose proof (Byte.to_N_bounded b2) as B2'.
    destruct (sextet_bounds (Byte.to_N a1) (Byte.to_N a2) B1 B2)
      as (? & ? & _).
    destruct (sextet_bounds (Byte.to_N b1) (Byte.to_N b2) B1' B2')
      as (? & ? & _).
    destruct (sextet_bounds (Byte.to_N a2) 0 B2 ltac:(discriminate))
      as (_ & _ & _ & _ & _ & ?).
    destruct (sextet_bounds (Byte.to_N b2) 0 B2' ltac:(discriminate))
      as (_ & _ & _ & _ & _ & ?).
    apply alphabet_inj in E1, E2, E3; try assumption.
    destruct (sextets_inj3 (Byte.to_N a1) (Byte.to_N a2) 0
                           (Byte.to_N b1) (Byte.to_N b2) 0)
      as (Hx & Hy & _); try assumption; try reflexivity; try discriminate.
    + change (0 / 64)%N with 0%N. rewrite !N.add_0_r. exact E3.
    + apply to_N_inj in Hx, Hy. subst. reflexivity.
  - (* three bytes and more *)
    injection H as E1 E2 E3 E4 Hrest.
    pose proof (Byte.to_N_bounded a1) as B1.
    pose proof (Byte.to_N_bounded a2) as B2.
    pose proof (Byte.to_N_bounded a3) as B3.
    pose proof (Byte.to_N_bounded b1) as B1'.
    pose proof (Byte.to_N_bounded b2) as B2'.
    pose proof (Byte.to_N_bounded b3) as B3'.
    destruct (sextet_bounds (Byte.to_N a1) (Byte.to_N a2) B1 B2)
      as (? & ? & _).
    destruct (sextet_bounds (Byte.to_N b1) (Byte.to_N b2) B1' B2')
      as (? & ? & _).
    destruct (sextet_bounds (Byte.to_N a2) (Byte.to_N a3) B2 B3)
      as (_ & _ & ? & _).
    destruct (sextet_bounds (Byte.to_N b2) (Byte.to_N b3) B2' B3')
      as (_ & _ & ? & _).
    destruct (sextet_bounds (Byte.to_N a3) 0 B3 ltac:(discriminate))
      as (_ & _ & _ & ? & _).
    destruct (sextet_bounds (Byte.to_N b3) 0 B3' ltac:(discriminate))
      as (_ & _ & _ & ? & _).
    apply alphabet_inj in E1, E2, E3, E4; try assumption.
    destruct (sextets_inj3 (Byte.to_N a1) (Byte.to_N a2) (Byte.to_N a3)
                           (Byte.to_N b1) (Byte.to_N b2) (Byte.to_N b3))
      as (Hx & Hy & Hz); try assumption.
    apply to_N_inj in Hx, Hy, Hz. subst. f_equal. f_equal. f_equal.
    apply IH. exact Hrest.
Qed.

(** X15: two files with the same data URL have the same bytes. *)
Theorem data_url_determines_bytes (E : Env) (p q : str) (st st' : State E)
        (url_p url_q : str) (raw_p raw_q : list byte) :
  file_read E p = Ok raw_p ->
  file_read E q = Ok raw_q ->
  fst (image_to_data_url E p st) = Ok url_p ->
  fst (image_to_data_url E q st') = Ok url_q ->
  url_p = url_q -> raw_p = raw_q.
Proof.
  unfold image_to_data_url. intros Hp Hq. rewrite Hp, Hq. cbn [fst].
  intros Ep Eq Heq. injection Ep as Ep. injection Eq as Eq.
  rewrite <- Ep, <- Eq in Heq. unfold data_url in Heq.
  apply app_inv_head in Heq. apply b64encode_injective. exact Heq.
Qed.

Lemma data_url_determines_bytes_witness :
  fst (image_to_data_url Gallery.env Gallery.SLIVER (Build_State Gallery.env [] []))
  = fst (image_to_data_url Gallery.env Gallery.STRIP (Build_State Gallery.env [] []))
  /\ file_read Gallery.env Gallery.SLIVER = file_read Gallery.env Gallery.STRIP.
Proof.
  split; [reflexivity|].
  apply (f_equal (@Ok (list byte))).
  exact (data_url_determines_bytes
           Gallery.env Gallery.SLIVER Gallery.STRIP
           (Build_State Gallery.env [] []) (Build_State Gallery.env [] [])
           (data_url Gallery.scan_raw) (data_url Gallery.scan_raw)
           Gallery.scan_raw Gallery.scan_raw
           eq_refl eq_refl eq_refl eq_refl eq_refl).
Defined.

(** ** The worklist *)

(** X16: the worklist has one entry for each path an item lists,
    duplicates included, and holds exactly the absolute forms of the
    listed paths. *)
Theorem worklist_keeps_every_listed_path (E : Env) (input_data : list Item) :
  List.length (_extract_file_paths E input_data)
  = list_sum (List.map (fun data => List.length (listed_paths data)) input_data)
  /\ (forall p,
        In p (_extract_file_paths E input_data)
        <-> exists data q,
              In data input_data /\ In q (listed_paths data)
              /\ p = abspath E q)
  /\ (forall data paths,
        input_data = [data] -> file_path data = Some paths ->
        _extract_file_paths E input_data = List.map (abspath E) paths).
Proof.
  split; [|split].
  - induction input_data as [|d rest IH]; [reflexivity|].
    change (_extract_file_paths E (d :: rest))
      with (List.map (abspath E) (listed_paths d) ++ _extract_file_paths E rest).
    rewrite length_app, length_map, IH. reflexivity.
  - intros p. unfold _extract_file_paths. rewrite in_flat_map. split.
    + intros (d & Hd & Hp). apply in_map_iff in Hp.
      destruct Hp as (q & <- & Hq). exists d, q. auto.
    + intros (d & q & Hd & Hq & ->). exists d. split; [exact Hd|].
      apply in_map. exact Hq.
  - intros data paths -> Hp. unfold _extract_file_paths. cbn.
    rewrite Hp. apply app_nil_r.
Qed.

Lemma worklist_keeps_every_listed_path_witness :
  let twice := Demo.item ["a.png"; "a.png"]%string "extract" in
  let bare := {| file_path := None; text_input := None |} in
  let other := Demo.item ["b.png"]%string "extract" in
  List.length (_extract_file_paths Demo.env [twice; bare; other]) = 3%nat
  /\ In (u "/srv/app/b.png") (_extract_file_paths Demo.env [twice; bare; other])
  /\ _extract_file_paths Demo.env [twice]
     = [u "/srv/app/a.png"; u "/srv/app/a.png"].
Proof.
  intros twice bare other.
  destruct (worklist_keeps_every_listed_path Demo.env [twice; bare; other])
    as (Hlen & Hin & _).
  split; [rewrite Hlen; reflexivity|]. split.
  - apply Hin. exists other, (u "b.png"). split; [cbn; tauto|].
    split; [left; reflexivity|]. vm_compute. reflexivity.
  - rewrite (proj2 (proj2 (worklist_keeps_every_listed_path Demo.env [twice]))
               twice [u "a.png"; u "a.png"] eq_refl eq_refl).
    vm_compute. reflexivity.
Defined.

Lemma initial_slashes_abs (path : str) :
  Posix.isabs path = true -> exists n, Posix.initial_slashes path = S n.
Proof.
  unfold Posix.isabs. destruct path as [|a rest]; [discriminate|].
  cbn [PyStr.startswith]. rewrite andb_true_r. intros H.
  apply N.eqb_eq in H. subst a.
  destruct rest as [|b [|c rest]]; cbn [Posix.initial_slashes];
    rewrite N.eqb_refl.
  - eauto.
  - destruct (b =? Posix.SLASH)%N; eauto.
  - destruct ((b =? Posix.SLASH) && negb (c =? Posix.SLASH))%N; eauto.
Qed.

Lemma normpath_abs (path : str) :
  Posix.isabs path = true -> Posix.isabs (Posix.normpath path) = true.
Proof.
  intros H. destruct (initial_slashes_abs path H) as [n Hn].
  unfold Posix.normpath. destruct path as [|a rest]; [discriminate|].
  rewrite Hn. reflexivity.
Qed.

Lemma path_join_abs (cwd path : str) :
  Posix.isabs cwd = true -> Posix.isabs (Posix.path_join cwd path) = true.
Proof.
  intros H. unfold Posix.path_join.
  destruct (Posix.isabs path) eqn:Ep; [exact Ep|].
  destruct cwd as [|a cwd']; [discriminate|].
  destruct (rev (a :: cwd')) as [|c r] eqn:Er.
  - apply (f_equal (@List.length char)) in Er. rewrite length_rev in Er.
    discriminate.
  - destruct (c =? Posix.SLASH)%N; cbn in *; exact H.
Qed.

(** X17: in a process whose working directory is absolute, every
    worklist path starts with a slash. *)
Theorem worklist_paths_are_absolute (E : Env) (cwd : str)
        (input_data : list Item) :
  abspath E = Posix.abspath cwd ->
  Posix.isabs cwd = true ->
  Forall (fun p => Posix.isabs p = true) (_extract_file_paths E input_data).
Proof.
  intros Habs Hcwd. apply Forall_forall. intros p Hp.
  unfold _extract_file_paths in Hp. apply in_flat_map in Hp.
  destruct Hp as (d & _ & Hp). apply in_map_iff in Hp.
  destruct Hp as (q & <- & _). rewrite Habs. unfold Posix.abspath.
  apply normpath_abs. destruct (Posix.isabs q) eqn:Eq; [exact Eq|].
  apply path_join_abs. exact Hcwd.
Qed.

Lemma worklist_paths_are_absolute_witness :
  abspath Demo.env = Posix.abspath Demo.cwd
  /\ Posix.isabs Demo.cwd = true
  /\ _extract_file_paths Demo.env
       [Demo.item ["scans/a.png"; "../b.png"; "/c/./d.png"]%string "extract"]
     = [u "/srv/app/scans/a.png"; u "/srv/b.png"; u "/c/d.png"]
  /\ Forall (fun p => Posix.isabs p = true)
            (_extract_file_paths Demo.env
               [Demo.item ["scans/a.png"; "../b.png"; "/c/./d.png"]%string
                          "extract"]).
Proof.
  split; [reflexivity|]. split; [reflexivity|]. split.
  - vm_compute. reflexivity.
  - apply (worklist_paths_are_absolute Demo.env Demo.cwd); reflexivity.
Defined.
